(** * CachedSandbox: a per-key cached sandbox slot

    A shallow embedding of
    [packages/server/shared/src/lib/flows/sandbox/caching/cached-sandbox.ts]
    and the properties of its lifecycle: [init], [prepare],
    [decrementActiveSandboxCount] and the accessors [path], [lastUsedAt],
    [isInUse].

    The class keeps three mutable fields behind an [async-mutex] lock and
    talks to the file system, three installers and the code builder.  Here
    the object, the wall clock, the directories on disk, the record of every
    collaborator invocation and the debug log make up one [World]; an
    asynchronous method is a function from a [World] to a [Result] and the
    [World] it leaves behind.  What the collaborators answer, and how long
    they take, is not decided by this file: it is the [respond] field of
    [Externals], over which every definition and theorem is generic. *)

From Stdlib Require Import ZArith List String Bool Lia.
Import ListNotations.

Local Open Scope string_scope.
Local Open Scope Z_scope.

(** ** Data the file imports *)

(** [CachedSandboxState] of [./cached-sandbox-state]: the three lifecycle
    states the class compares against. *)
Inductive CachedSandboxState : Type :=
| CREATED
| INITIALIZED
| READY.

Definition CachedSandboxState_eqb (a b : CachedSandboxState) : bool :=
  match a, b with
  | CREATED, CREATED | INITIALIZED, INITIALIZED | READY, READY => true
  | _, _ => false
  end.

(** [PiecePackage] and [SourceCode] come from [@activepieces/shared]; the
    class only hands them on, so they stay abstract. *)
Class SharedTypes : Type := {
  PiecePackage : Type;
  SourceCode : Type
}.

Section Data.
Context {T : SharedTypes}.

(** [type CodeArtifact = { name: string, sourceCode: SourceCode }] *)
Record CodeArtifact : Type := {
  name : string;
  sourceCode : SourceCode
}.

(** [type PrepareParams = { pieces: PiecePackage[], codeSteps?: CodeArtifact[] }]:
    the optional property is an [option]. *)
Record PrepareParams : Type := {
  pieces : list PiecePackage;
  codeSteps : option (list CodeArtifact)
}.

(** [type CtorParams = { key: string }] *)
Record CtorParams : Type := {
  ctor_key : string
}.

(** The value [prepare] attaches to an error it rethrows (the object literal
    [contextValue] of its [catch] block). *)
Record ContextValue : Type := {
  args : list PiecePackage * list CodeArtifact;
  ctx_state : CachedSandboxState;
  activeSandboxes : Z;
  ctx_key : string;
  ctx_lastUsedAt : Z;
  ctx_isInUse : bool;
  ctx_path : string
}.

(** A JavaScript [Error]: its class name, its message, and the diagnostic
    context that error enrichment accumulates under string keys.  A context
    entry written elsewhere than in this class is kept as text. *)
Inductive Diagnostic : Type :=
| SandboxContext (value : ContextValue)
| ForeignContext (text : string).

Record Error : Type := {
  err_name : string;
  err_message : string;
  err_context : list (string * Diagnostic)
}.

(** [new Error(message)] *)
Definition new_Error (message : string) : Error :=
  {| err_name := "Error"; err_message := message; err_context := [] |}.

(** ** Collaborators *)

(** One invocation of a collaborator, with the arguments the class passes. *)
Inductive Call : Type :=
| fs_rm (path : string) (recursive force : bool)
| fs_mkdir (path : string) (recursive : bool)
| packageManager_init (path : string)
| pieceManager_install (projectPath : string) (pieces : list PiecePackage)
| engineInstaller_install (path : string)
| codeBuilder_processCodeStep (sourceCodeId : string) (sourceCode : SourceCode)
                              (buildPath : string).

(** How the promise returned by an invocation settles: after [duration]
    ticks of the clock, fulfilled ([rejection = None]) or rejected. *)
Record Outcome : Type := {
  duration : nat;
  rejection : option Error
}.

(** An invocation that was made: the call, the clock when it started and
    how it settles. *)
Record Event : Type := {
  ev_call : Call;
  ev_started : Z;
  ev_outcome : Outcome
}.

Definition ev_finish (ev : Event) : Z :=
  ev_started ev + Z.of_nat (duration (ev_outcome ev)).

Definition succeeded (ev : Event) : Prop := rejection (ev_outcome ev) = None.
Definition failed (ev : Event) : Prop := rejection (ev_outcome ev) <> None.

Definition is_build (ev : Event) : bool :=
  match ev_call ev with
  | codeBuilder_processCodeStep _ _ _ => true
  | _ => false
  end.

(** [logger.debug] records: the constructor logs name and key, the three
    methods also the state and the borrower count they see on entry. *)
Inductive LogRecord : Type :=
| LogCtor (log_name log_key : string)
| LogCall (log_name log_key : string) (log_state : CachedSandboxState)
          (log_activeSandboxes : Z).

(** What an asynchronous method settles to: a value, or a thrown error. *)
Inductive Result (A : Type) : Type :=
| Ok (a : A)
| Err (e : Error).

End Data.

Arguments Ok {T A} a.
Arguments Err {T A} e.

(** What the class takes from its surroundings: the configured cache root
    ([system.get(SystemProp.CACHE_PATH) ?? resolve('dist', 'cache')], read
    once), the text a state prints as inside a template literal, the helper
    [enrichErrorContext] of [../../../exception-handler], and the behaviour
    of the collaborators, which may depend on everything that was invoked
    before. *)
Class Externals {T : SharedTypes} : Type := {
  CACHE_PATH : string;
  stateText : CachedSandboxState -> string;
  enrichErrorContext : Error -> string -> Diagnostic -> Error;
  respond : list Event -> Call -> Outcome
}.

Section Model.
Context {T : SharedTypes} {X : Externals}.

(** ** The object and its world *)

(** The fields of [class CachedSandbox]. Timestamps ([dayjs()]) are clock
    readings; [_activeSandboxCount] is a JavaScript number that the class
    only ever moves by one, an integer. *)
Record CachedSandbox : Type := {
  key : string;
  _state : CachedSandboxState;
  _activeSandboxCount : Z;
  _lastUsedAt : Z
}.

Record World : Type := {
  this : CachedSandbox;
  now : Z;
  dirs : list string;
  events : list Event;
  logs : list LogRecord
}.

Definition set_this (f : CachedSandbox -> CachedSandbox) (w : World) : World :=
  {| this := f (this w); now := now w; dirs := dirs w;
     events := events w; logs := logs w |}.

Definition set_now (t : Z) (w : World) : World :=
  {| this := this w; now := t; dirs := dirs w;
     events := events w; logs := logs w |}.

Definition set_dirs (f : list string -> list string) (w : World) : World :=
  {| this := this w; now := now w; dirs := f (dirs w);
     events := events w; logs := logs w |}.

Definition add_event (ev : Event) (w : World) : World :=
  {| this := this w; now := now w; dirs := dirs w;
     events := events w ++ [ev]; logs := logs w |}.

Definition add_log (r : LogRecord) (w : World) : World :=
  {| this := this w; now := now w; dirs := dirs w;
     events := events w; logs := logs w ++ [r] |}.

Definition with_state (s : CachedSandboxState) (o : CachedSandbox) : CachedSandbox :=
  {| key := key o; _state := s;
     _activeSandboxCount := _activeSandboxCount o; _lastUsedAt := _lastUsedAt o |}.

Definition with_activeSandboxCount (n : Z) (o : CachedSandbox) : CachedSandbox :=
  {| key := key o; _state := _state o;
     _activeSandboxCount := n; _lastUsedAt := _lastUsedAt o |}.

Definition with_lastUsedAt (t : Z) (o : CachedSandbox) : CachedSandbox :=
  {| key := key o; _state := _state o;
     _activeSandboxCount := _activeSandboxCount o; _lastUsedAt := t |}.

(** ** Asynchronous methods as world transformers *)

(** A method either returns or throws; the world it has changed stays
    changed either way. *)
Definition M (A : Type) : Type := World -> Result A * World.

Definition ret {A} (a : A) : M A := fun w => (Ok a, w).

Definition bind {A B} (m : M A) (k : A -> M B) : M B :=
  fun w =>
    match m w with
    | (Ok a, w') => k a w'
    | (Err e, w') => (Err e, w')
    end.

Definition throw {A} (e : Error) : M A := fun w => (Err e, w).

(** [try { body } catch (error) { handler }] *)
Definition tryCatch {A} (body : M A) (handler : Error -> M A) : M A :=
  fun w =>
    match body w with
    | (Ok a, w') => (Ok a, w')
    | (Err e, w') => handler e w'
    end.

Definition gets {A} (f : World -> A) : M A := fun w => (Ok (f w), w).
Definition modify (f : World -> World) : M unit := fun w => (Ok tt, f w).

Notation "x <- m ;; k" := (bind m (fun x => k))
  (at level 61, m at next level, right associativity).
Notation "m ;; k" := (bind m (fun _ => k))
  (at level 61, right associativity).

(** [dayjs()]: the current time. *)
Definition dayjs : M Z := gets now.

(** Calling a collaborator starts its work and yields a pending promise:
    the invocation is recorded, with the answer the surroundings give to it
    after everything invoked so far, and no time passes. *)
Definition invoke (c : Call) : M Event :=
  fun w =>
    let ev := {| ev_call := c; ev_started := now w;
                 ev_outcome := respond (events w) c |} in
    (Ok ev, add_event ev w).

(** [await promise]: the caller resumes when the promise has settled, with
    its value or with its rejection thrown. *)
Definition await (ev : Event) : M unit :=
  fun w =>
    let w' := set_now (Z.max (now w) (ev_finish ev)) w in
    match rejection (ev_outcome ev) with
    | None => (Ok tt, w')
    | Some e => (Err e, w')
    end.

(** [await collaborator(...)]: invoke and wait for the result. *)
Definition await_call (c : Call) : M unit :=
  ev <- invoke c ;;
  await ev.

(** The rejected promise of [jobs] that settles first, with its reason; of
    two that settle on the same tick, the one earlier in the array. *)
Fixpoint first_rejection (jobs : list Event) : option (Event * Error) :=
  match jobs with
  | [] => None
  | j :: rest =>
      match rejection (ev_outcome j), first_rejection rest with
      | Some e, Some (j', e') =>
          if ev_finish j <=? ev_finish j' then Some (j, e) else Some (j', e')
      | Some e, None => Some (j, e)
      | None, r => r
      end
  end.

(** The tick by which every promise of [jobs] has settled, not before [t]. *)
Definition all_settled_at (t : Z) (jobs : list Event) : Z :=
  fold_right (fun j acc => Z.max (ev_finish j) acc) t jobs.

(** [await Promise.all(jobs)].  [Promise.all] is fulfilled once every
    promise is fulfilled, and rejected as soon as one of them is rejected,
    with that reason: it does not wait for the promises still pending. *)
Definition Promise_all (jobs : list Event) : M unit :=
  fun w =>
    match first_rejection jobs with
    | Some (j, e) => (Err e, set_now (Z.max (now w) (ev_finish j)) w)
    | None => (Ok tt, set_now (all_settled_at (now w) jobs) w)
    end.

(** [Array.prototype.map] over calls that each return a promise: the calls
    are made one after the other, none is awaited. *)
Fixpoint invoke_all (cs : list Call) : M (list Event) :=
  match cs with
  | [] => ret []
  | c :: rest =>
      ev <- invoke c ;;
      evs <- invoke_all rest ;;
      ret (ev :: evs)
  end.

(** [lock.runExclusive(body)]: the lock lets one body run at a time, so
    within a history of the object the bodies follow one another; the body
    itself runs as written. *)
Definition runExclusive {A} (body : M A) : M A := body.

(** ** File system ([node:fs/promises]) *)

(** [d] is [p] or lies below it. *)
Definition under (p d : string) : bool :=
  String.eqb p d || String.prefix (p ++ "/") d.

(** [rm(path, { recursive, force })]: once it succeeds, the path (and with
    [recursive] everything below it) is gone; [force] makes a missing path
    no error, so whether it fails is the surroundings' answer. *)
Definition rm (p : string) (recursive force : bool) : M unit :=
  await_call (fs_rm p recursive force) ;;
  modify (set_dirs (filter (fun d =>
    negb (if recursive then under p d else String.eqb p d)))).

(** [mkdir(path, { recursive })]: once it succeeds, the directory exists. *)
Definition mkdir (p : string) (recursive : bool) : M unit :=
  await_call (fs_mkdir p recursive) ;;
  modify (set_dirs (fun ds => if existsb (String.eqb p) ds then ds else (ds ++ [p])%list)).

(** ** The class *)

(** Field initialisers, then the constructor body, evaluated at time
    [clock] with [disk], [history] and [log] as they are at that moment. *)
Definition new_CachedSandbox (params : CtorParams) (clock : Z) (disk : list string)
    (history : list Event) (log : list LogRecord) : World :=
  {| this := {| key := ctor_key params;
                _state := CREATED;
                _activeSandboxCount := 0;
                _lastUsedAt := clock |};
     now := clock;
     dirs := disk;
     events := history;
     logs := log ++ [LogCtor "CachedSandbox#ctor" (ctor_key params)] |}.

Definition path (w : World) : string :=
  CACHE_PATH ++ "/sandbox/" ++ key (this w).

Definition lastUsedAt (w : World) : Z := _lastUsedAt (this w).

Definition isInUse (w : World) : bool := _activeSandboxCount (this w) >? 0.

Definition logger_debug (log_name : string) : M unit :=
  modify (fun w => add_log (LogCall log_name (key (this w)) (_state (this w))
                              (_activeSandboxCount (this w))) w).

Definition deletePathIfExists : M unit :=
  p <- gets path ;;
  rm p true true.

Definition init : M unit :=
  logger_debug "CachedSandbox#init" ;;
  runExclusive (
    st <- gets (fun w => _state (this w)) ;;
    if negb (CachedSandboxState_eqb st CREATED) then ret tt
    else
      deletePathIfExists ;;
      p <- gets path ;;
      mkdir p true ;;
      modify (set_this (with_state INITIALIZED))).

Definition buildCodeArchives (codeArchives : list CodeArtifact) : M unit :=
  p <- gets path ;;
  buildJobs <- invoke_all (map (fun archive =>
      codeBuilder_processCodeStep (name archive) (sourceCode archive) p)
    codeArchives) ;;
  Promise_all buildJobs.

(** The object literal [contextValue] that the [catch] block of [prepare]
    builds from the call's arguments and the fields as they are then. *)
Definition contextValue_of (pieces : list PiecePackage)
    (codeSteps : list CodeArtifact) (w : World) : ContextValue :=
  {| args := (pieces, codeSteps);
     ctx_state := _state (this w);
     activeSandboxes := _activeSandboxCount (this w);
     ctx_key := key (this w);
     ctx_lastUsedAt := lastUsedAt w;
     ctx_isInUse := isInUse w;
     ctx_path := path w |}.

Definition prepare (params : PrepareParams) : M unit :=
  let pieces := pieces params in
  let codeSteps := match codeSteps params with Some l => l | None => [] end in
  logger_debug "CachedSandbox#prepare" ;;
  tryCatch
    (runExclusive (
      st <- gets (fun w => _state (this w)) ;;
      let notInitialized := CachedSandboxState_eqb st CREATED in
      if notInitialized then
        k <- gets (fun w => key (this w)) ;;
        throw (new_Error ("[CachedSandbox#prepare] not initialized, Key=" ++ k
                            ++ " state=" ++ stateText st))
      else
        modify (set_this (fun o =>
          with_activeSandboxCount (_activeSandboxCount o + 1) o)) ;;
        t <- dayjs ;;
        modify (set_this (with_lastUsedAt t)) ;;
        st' <- gets (fun w => _state (this w)) ;;
        let alreadyPrepared := negb (CachedSandboxState_eqb st' INITIALIZED) in
        if alreadyPrepared then ret tt
        else
          p <- gets path ;;
          await_call (packageManager_init p) ;;
          p <- gets path ;;
          await_call (pieceManager_install p pieces) ;;
          p <- gets path ;;
          await_call (engineInstaller_install p) ;;
          buildCodeArchives codeSteps ;;
          modify (set_this (with_state READY))))
    (fun error =>
      let contextKey := "[CachedSandbox#prepare]" in
      contextValue <- gets (contextValue_of pieces codeSteps) ;;
      let enrichedError :=
        enrichErrorContext error contextKey (SandboxContext contextValue) in
      throw enrichedError).

Definition decrementActiveSandboxCount : M unit :=
  logger_debug "CachedSandbox#decrementActiveSandboxCount" ;;
  runExclusive (
    n <- gets (fun w => _activeSandboxCount (this w)) ;;
    if n =? 0 then ret tt
    else modify (set_this (fun o =>
           with_activeSandboxCount (_activeSandboxCount o - 1) o))).

(** ** Histories of one object *)

(** What can happen to a slot once it is constructed: its three methods
    (the spec's Initialize, Prepare and Release), and time passing between
    calls. *)
Inductive Op : Type :=
| Initialize
| Prepare (params : PrepareParams)
| Release
| Idle (ticks : nat).

Definition exec (op : Op) : M unit :=
  match op with
  | Initialize => init
  | Prepare params => prepare params
  | Release => decrementActiveSandboxCount
  | Idle ticks => modify (fun w => set_now (now w + Z.of_nat ticks) w)
  end.

Fixpoint run (ops : list Op) (w : World) : World :=
  match ops with
  | [] => w
  | op :: rest => run rest (snd (exec op w))
  end.

(** [codeSteps] as [prepare] reads it: the default value of the destructured
    parameter is the empty array. *)
Definition codeSteps_of (params : PrepareParams) : list CodeArtifact :=
  match codeSteps params with Some l => l | None => [] end.

(** The promises [cs.map(call)] returns when it runs at time [t] after the
    invocations [h]: each call is answered after the ones before it. *)
Fixpoint launched (h : list Event) (t : Z) (cs : list Call) : list Event :=
  match cs with
  | [] => []
  | c :: rest =>
      let ev := {| ev_call := c; ev_started := t; ev_outcome := respond h c |} in
      ev :: launched (h ++ [ev]) t rest
  end.

(** The record of invoking [c] in world [w], and the world in which the
    caller resumes after awaiting it. *)
Definition event_of (c : Call) (w : World) : Event :=
  {| ev_call := c; ev_started := now w; ev_outcome := respond (events w) c |}.

Definition after (c : Call) (w : World) : World :=
  set_now (Z.max (now w) (ev_finish (event_of c w))) (add_event (event_of c w) w).

Definition add_events (evs : list Event) (w : World) : World :=
  {| this := this w; now := now w; dirs := dirs w;
     events := events w ++ evs; logs := logs w |}.

(** The builds [buildCodeArchives] starts, one for each artifact. *)
Definition build_calls (p : string) (codeSteps : list CodeArtifact) : list Call :=
  map (fun archive =>
    codeBuilder_processCodeStep (name archive) (sourceCode archive) p) codeSteps.

(** The invocations [prepare] makes on an initialized slot when nothing
    fails, in order. *)
Definition build_sequence (p : string) (pieces : list PiecePackage)
    (codeSteps : list CodeArtifact) : list Call :=
  ([packageManager_init p; pieceManager_install p pieces; engineInstaller_install p]
   ++ build_calls p codeSteps)%list.

(** The world [prepare] continues in once it is past the initialisation
    check: logged, one more borrower, used now. *)
Definition borrowed (w : World) : World :=
  set_this (with_lastUsedAt (now w))
    (set_this (fun o => with_activeSandboxCount (_activeSandboxCount o + 1) o)
       (add_log (LogCall "CachedSandbox#prepare" (key (this w)) (_state (this w))
                   (_activeSandboxCount (this w))) w)).

(** The part of [prepare] that only an initialized slot runs. *)
Definition install_and_build (params : PrepareParams) : M unit :=
  p <- gets path ;;
  await_call (packageManager_init p) ;;
  p <- gets path ;;
  await_call (pieceManager_install p (pieces params)) ;;
  p <- gets path ;;
  await_call (engineInstaller_install p) ;;
  buildCodeArchives (codeSteps_of params) ;;
  modify (set_this (with_state READY)).

(** The error [prepare] throws when [error] reaches its [catch] block in
    world [w]. *)
Definition enriched (params : PrepareParams) (w : World) (error : Error) : Error :=
  enrichErrorContext error "[CachedSandbox#prepare]"
    (SandboxContext (contextValue_of (pieces params) (codeSteps_of params) w)).

(** The contract the spec gives [enrichErrorContext]: it attaches context
    "to a failure without changing its kind". *)
Definition keeps_kind : Prop :=
  forall (error : Error) (key : string) (value : Diagnostic),
    err_name (enrichErrorContext error key value) = err_name error /\
    err_message (enrichErrorContext error key value) = err_message error.

(** [evs] were invoked from time [t] on in the manner of [prepare]: what
    follows an installer starts when that installer has finished (it was
    awaited), what follows a build starts together with it (it was not). *)
Fixpoint scheduled (t : Z) (evs : list Event) : Prop :=
  match evs with
  | [] => True
  | ev :: rest =>
      ev_started ev = t /\
      scheduled (if is_build ev then t else ev_finish ev) rest
  end.

(** [evs] are invocations really made after the history [h]: each settles
    as the surroundings answer its call after [h] and the invocations
    before it. *)
Fixpoint answered (h : list Event) (evs : list Event) : Prop :=
  match evs with
  | [] => True
  | ev :: rest =>
      ev_outcome ev = respond h (ev_call ev) /\
      answered (h ++ [ev]) rest
  end.

(** The time of the latest Prepare call, in the history [ops] from [w] on,
    that found the slot past [CREATED]; [stamp] if there is none. *)
Fixpoint last_accepted_prepare (ops : list Op) (w : World) (stamp : Z) : Z :=
  match ops with
  | [] => stamp
  | op :: rest =>
      last_accepted_prepare rest (snd (exec op w))
        (match op, _state (this w) with
         | Prepare _, (INITIALIZED | READY) => now w
         | _, _ => stamp
         end)
  end.

Definition is_prepare (op : Op) : bool :=
  match op with
  | Prepare _ => true
  | _ => false
  end.

(** The events of [w'] that [w] does not have yet. *)
Definition new_events (w w' : World) : list Event :=
  skipn (List.length (events w)) (events w').

(** How a [prepare] call on an initialized slot can go, told by the
    invocations [evs] it makes: one of the three installers is rejected and
    nothing is invoked after it; or the installers succeed, every build is
    started, and the first rejection among the builds ends the call; or
    nothing is rejected. *)
Inductive prepare_outcome (params : PrepareParams) (w : World)
    (r : Result unit) (w' : World) (evs : list Event) : Prop :=
| installer_rejected (pre : list Event) (ev : Event) (e0 : Error)
    (Hevs : evs = (pre ++ [ev])%list)
    (Hpre : (List.length pre < 3)%nat)
    (Hok : Forall succeeded pre)
    (Hnobuild : Forall (fun ev => is_build ev = false) evs)
    (Hrej : rejection (ev_outcome ev) = Some e0)
    (Hres : r = Err (enriched params w' e0))
    (Hnow : now w' = ev_finish ev)
    (Hstate : _state (this w') = INITIALIZED)
| build_rejected (pre jobs : list Event) (start : Z) (j : Event) (e0 : Error)
    (Hevs : evs = (pre ++ jobs)%list)
    (Hpre : List.length pre = 3%nat)
    (Hok : Forall succeeded pre)
    (Hnobuild : Forall (fun ev => is_build ev = false) pre)
    (Hjobs : map ev_call jobs = build_calls (path w) (codeSteps_of params))
    (Hstart : Forall (fun ev => ev_started ev = start) jobs)
    (Hfirst : first_rejection jobs = Some (j, e0))
    (Hres : r = Err (enriched params w' e0))
    (Hnow : now w' = ev_finish j)
    (Hstate : _state (this w') = INITIALIZED)
| all_fulfilled (pre jobs : list Event) (start : Z)
    (Hevs : evs = (pre ++ jobs)%list)
    (Hpre : List.length pre = 3%nat)
    (Hok : Forall succeeded evs)
    (Hnobuild : Forall (fun ev => is_build ev = false) pre)
    (Hjobs : map ev_call jobs = build_calls (path w) (codeSteps_of params))
    (Hstart : Forall (fun ev => ev_started ev = start) jobs)
    (Hres : r = Ok tt)
    (Hnow : Forall (fun ev => ev_finish ev <= now w') evs)
    (Hstate : _state (this w') = READY).

End Model.

(** ** Sample surroundings *)

Module Samples.

#[local] Instance texts : SharedTypes := {| PiecePackage := string; SourceCode := string |}.

Definition rejected (ticks : nat) (message : string) : Outcome :=
  {| duration := ticks; rejection := Some (new_Error message) |}.

Definition fulfilled (ticks : nat) : Outcome :=
  {| duration := ticks; rejection := None |}.

(** Modelled from the spec: [enrichErrorContext] is not among the sources.
    The spec describes it as "error-enrichment that attaches structured
    context (key, state, counts, timestamps, path, call arguments) to a
    failure without changing its kind": the entry is added under [key], name
    and message stay. *)
Definition attachContext (error : Error) (key : string) (value : Diagnostic) : Error :=
  {| err_name := err_name error;
     err_message := err_message error;
     err_context := err_context error ++ [(key, value)] |}.

Definition renderState (s : CachedSandboxState) : string :=
  match s with
  | CREATED => "CREATED"
  | INITIALIZED => "INITIALIZED"
  | READY => "READY"
  end.

(** Every collaborator succeeds after one tick. *)
Definition calm : Externals :=
  {| CACHE_PATH := "/tmp/cache";
     stateText := renderState;
     enrichErrorContext := attachContext;
     respond := fun _ _ => fulfilled 1 |}.

(** The build of the artifact named [bad] is rejected after one tick, every
    other build is fulfilled after five, everything else after one. *)
Definition one_bad_build : Externals :=
  {| CACHE_PATH := "/tmp/cache";
     stateText := renderState;
     enrichErrorContext := attachContext;
     respond := fun _ c =>
       match c with
       | codeBuilder_processCodeStep id _ _ =>
           if String.eqb id "bad" then rejected 1 "build failed" else fulfilled 5
       | _ => fulfilled 1
       end |}.

(** The dependency context cannot be initialised the first time it is
    tried, and can afterwards. *)
Definition flaky_install : Externals :=
  {| CACHE_PATH := "/tmp/cache";
     stateText := renderState;
     enrichErrorContext := attachContext;
     respond := fun history c =>
       match c, history with
       | packageManager_init _, [_; _] => rejected 2 "registry unreachable"
       | _, _ => fulfilled 1
       end |}.

(** Removing the directory fails. *)
Definition locked_disk : Externals :=
  {| CACHE_PATH := "/tmp/cache";
     stateText := renderState;
     enrichErrorContext := attachContext;
     respond := fun _ c =>
       match c with
       | fs_rm _ _ _ => rejected 1 "EACCES: permission denied"
       | _ => fulfilled 1
       end |}.

Definition fresh {X : Externals} : World :=
  new_CachedSandbox {| ctor_key := "abc" |} 100 [] [] [].

Definition artifact (id code : string) : CodeArtifact :=
  @Build_CodeArtifact texts id code.

Definition two_steps : list CodeArtifact :=
  [ artifact "bad" "throw 1"; artifact "good" "export const code = 1" ].

Definition request (codeSteps : option (list CodeArtifact)) : PrepareParams :=
  @Build_PrepareParams texts ["pieceA"] codeSteps.

(** The slot after a first [init], and after a first [prepare] as well. *)
Definition initialized (X : Externals) : World :=
  @run texts X [Initialize] (@fresh X).

Definition ready (X : Externals) : World :=
  @run texts X [Initialize; Prepare (request None)] (@fresh X).

End Samples.

(** * Properties *)

Section Proofs.
Context {T : SharedTypes} {X : Externals}.

Lemma await_call_run (c : Call) (w : World) :
  await_call c w =
  (match rejection (respond (events w) c) with
   | None => Ok tt
   | Some e => Err e
   end,
   set_now (Z.max (now w)
              (ev_finish {| ev_call := c; ev_started := now w;
                            ev_outcome := respond (events w) c |}))
     (add_event {| ev_call := c; ev_started := now w;
                   ev_outcome := respond (events w) c |} w)).
Proof.
  unfold await_call, bind, invoke, await; cbn.
  destruct (rejection (respond (events w) c)); reflexivity.
Qed.

Lemma invoke_all_run (cs : list Call) (w : World) :
  invoke_all cs w =
  (Ok (launched (events w) (now w) cs),
   add_events (launched (events w) (now w) cs) w).
Proof.
  revert w; induction cs as [|c cs IH]; intros w; cbn.
  - unfold ret, add_events. rewrite app_nil_r. destruct w; reflexivity.
  - unfold bind, invoke. rewrite IH. cbn. unfold ret, add_events; cbn.
    rewrite <- app_assoc. reflexivity.
Qed.

Lemma first_rejection_None (jobs : list Event) :
  first_rejection jobs = None <-> Forall succeeded jobs.
Proof.
  induction jobs as [|j jobs IH]; cbn.
  - split; auto.
  - unfold succeeded in *.
    destruct (rejection (ev_outcome j)) as [e|] eqn:Ej.
    + split.
      * destruct (first_rejection jobs) as [[j' e']|];
          [destruct (ev_finish j <=? ev_finish j')|]; discriminate.
      * intros H; inversion H; congruence.
    + rewrite IH. split.
      * intros H; constructor; assumption.
      * intros H; inversion H; assumption.
Qed.

Lemma first_rejection_Some (jobs : list Event) (j : Event) (e : Error) :
  first_rejection jobs = Some (j, e) ->
  In j jobs /\ rejection (ev_outcome j) = Some e /\
  forall j', In j' jobs -> failed j' -> ev_finish j <= ev_finish j'.
Proof.
  revert j e; induction jobs as [|a jobs IH]; cbn; intros j e H; [discriminate|].
  destruct (rejection (ev_outcome a)) as [ea|] eqn:Ea.
  - destruct (first_rejection jobs) as [[j1 e1]|] eqn:E1.
    + destruct (IH _ _ eq_refl) as (Hin & Hrej & Hmin).
      destruct (Z.leb_spec (ev_finish a) (ev_finish j1)); inversion H; subst.
      * repeat split; auto.
        intros j' [<-|Hj'] Hf; [lia|]. specialize (Hmin _ Hj' Hf). lia.
      * repeat split; auto.
        intros j' [<-|Hj'] Hf; [lia|]. apply Hmin; assumption.
    + inversion H; subst. repeat split; auto.
      intros j' [<-|Hj'] Hf; [lia|].
      apply first_rejection_None in E1.
      rewrite Forall_forall in E1. specialize (E1 _ Hj').
      unfold failed, succeeded in *. congruence.
  - destruct (IH _ _ H) as (Hin & Hrej & Hmin).
    repeat split; auto.
    intros j' [<-|Hj'] Hf; [unfold failed in Hf; congruence|].
    apply Hmin; assumption.
Qed.

Lemma all_settled_at_ge (t : Z) (jobs : list Event) :
  t <= all_settled_at t jobs /\
  Forall (fun j => ev_finish j <= all_settled_at t jobs) jobs.
Proof.
  unfold all_settled_at.
  induction jobs as [|j jobs [IH1 IH2]]; cbn [fold_right].
  - split; [lia|constructor].
  - split; [lia|]. constructor; [lia|].
    eapply Forall_impl; [|exact IH2]. cbn; intros; lia.
Qed.

Lemma launched_calls (h : list Event) (t : Z) (cs : list Call) :
  map ev_call (launched h t cs) = cs.
Proof.
  revert h; induction cs as [|c cs IH]; intros h; cbn; [reflexivity|].
  now rewrite IH.
Qed.

Lemma launched_started (h : list Event) (t : Z) (cs : list Call) :
  Forall (fun ev => ev_started ev = t) (launched h t cs).
Proof.
  revert h; induction cs as [|c cs IH]; intros h; cbn; constructor; auto.
Qed.

Lemma launched_builds (h : list Event) (t : Z) (p : string)
    (steps : list CodeArtifact) :
  Forall (fun ev => is_build ev = true) (launched h t (build_calls p steps)).
Proof.
  revert h; induction steps as [|a steps IH]; intros h; cbn; constructor; auto.
Qed.

Lemma new_events_app (w w' : World) (evs : list Event) :
  events w' = (events w ++ evs)%list -> new_events w w' = evs.
Proof.
  intros H. unfold new_events. rewrite H.
  generalize (events w) as l.
  induction l as [|a l IH]; cbn [List.length skipn app]; auto.
Qed.

Lemma filter_all {A} (f : A -> bool) (l : list A) :
  Forall (fun a => f a = true) l -> filter f l = l.
Proof.
  induction 1 as [|a l Ha _ IH]; cbn; [reflexivity|].
  now rewrite Ha, IH.
Qed.

Lemma prepare_unfold (params : PrepareParams) (w : World) :
  prepare params w =
  match _state (this w) with
  | CREATED =>
      let w0 := add_log (LogCall "CachedSandbox#prepare" (key (this w)) CREATED
                           (_activeSandboxCount (this w))) w in
      (Err (enriched params w0
              (new_Error ("[CachedSandbox#prepare] not initialized, Key="
                            ++ key (this w) ++ " state=" ++ stateText CREATED))),
       w0)
  | READY => (Ok tt, borrowed w)
  | INITIALIZED =>
      match install_and_build params (borrowed w) with
      | (Ok a, w') => (Ok a, w')
      | (Err e, w') => (Err (enriched params w' e), w')
      end
  end.
Proof.
  destruct w as [[k st n t] clock disk history log].
  destruct st; reflexivity.
Qed.

Lemma bind_gets {A B} (f : World -> A) (k : A -> M B) (w : World) :
  bind (gets f) k w = k (f w) w.
Proof. reflexivity. Qed.

Lemma bind_await_call {B} (c : Call) (k : unit -> M B) (w : World) :
  bind (await_call c) k w =
  match rejection (ev_outcome (event_of c w)) with
  | None => k tt (after c w)
  | Some e => (Err e, after c w)
  end.
Proof.
  unfold bind at 1. rewrite await_call_run. cbn.
  destruct (rejection (respond (events w) c)); reflexivity.
Qed.

Lemma buildCodeArchives_run (steps : list CodeArtifact) (w : World) :
  buildCodeArchives steps w =
  Promise_all (launched (events w) (now w) (build_calls (path w) steps))
    (add_events (launched (events w) (now w) (build_calls (path w) steps)) w).
Proof.
  unfold buildCodeArchives. rewrite bind_gets. unfold bind.
  rewrite invoke_all_run. reflexivity.
Qed.

Lemma after_fields (c : Call) (w : World) :
  this (after c w) = this w /\ dirs (after c w) = dirs w /\
  logs (after c w) = logs w /\ path (after c w) = path w /\
  events (after c w) = (events w ++ [event_of c w])%list /\
  now (after c w) = ev_finish (event_of c w) /\
  now w <= now (after c w) /\
  ev_call (event_of c w) = c.
Proof.
  unfold after, event_of, ev_finish, path; cbn. repeat split; lia.
Qed.

Lemma launched_answered (h : list Event) (t : Z) (cs : list Call) :
  answered h (launched h t cs).
Proof.
  revert h; induction cs as [|c cs IH]; intros h; cbn; auto.
Qed.

Lemma scheduled_builds (t : Z) (jobs : list Event) :
  Forall (fun j => is_build j = true) jobs ->
  Forall (fun j => ev_started j = t) jobs ->
  scheduled t jobs.
Proof.
  induction jobs as [|j jobs IH]; intros Hb Hs; cbn [scheduled]; [exact I|].
  apply Forall_cons_iff in Hb as [Hb1 Hb2].
  apply Forall_cons_iff in Hs as [Hs1 Hs2].
  split; [assumption|]. rewrite Hb1. auto.
Qed.

Ltac world_fields :=
  cbn [this key _state _activeSandboxCount _lastUsedAt now dirs events logs
       set_now set_this set_dirs add_event add_events add_log
       with_state with_lastUsedAt with_activeSandboxCount fst snd] in *.

Ltac frame_side :=
  repeat split; auto; try lia; try (symmetry; assumption).

Ltac installer_side :=
  try solve [cbn; lia];
  try solve [unfold succeeded; repeat (constructor; auto)].

Lemma prepare_initialized (params : PrepareParams) (w : World) :
  _state (this w) = INITIALIZED ->
  exists evs,
    events (snd (prepare params w)) = (events w ++ evs)%list /\
    map ev_call evs =
      firstn (List.length evs)
        (build_sequence (path w) (pieces params) (codeSteps_of params)) /\
    prepare_outcome params w (fst (prepare params w)) (snd (prepare params w)) evs /\
    this (snd (prepare params w)) =
      with_state (_state (this (snd (prepare params w)))) (this (borrowed w)) /\
    dirs (snd (prepare params w)) = dirs w /\
    logs (snd (prepare params w)) = logs (borrowed w) /\
    now w <= now (snd (prepare params w)) /\
    scheduled (now w) evs /\
    answered (events w) evs.
Proof.
  intros Hst. rewrite prepare_unfold, Hst. unfold install_and_build.
  assert (Hthis : this (borrowed w) =
            with_state INITIALIZED (this (borrowed w))).
  { destruct w as [[k st n t] clock disk history log].
    cbn in Hst; subst st; reflexivity. }
  set (wb := borrowed w) in *.
  assert (Hp : path wb = path w) by reflexivity.
  assert (Hev : events wb = events w) by reflexivity.
  assert (Hdirs : dirs wb = dirs w) by reflexivity.
  assert (Hnow : now wb = now w) by reflexivity.
  rewrite bind_gets, bind_await_call, Hp.
  set (c1 := packageManager_init (path w)).
  destruct (after_fields c1 wb) as (T1 & D1 & L1 & P1 & E1 & N1 & M1 & C1).
  assert (B1 : is_build (event_of c1 wb) = false) by reflexivity.
  destruct (rejection (ev_outcome (event_of c1 wb))) as [e1|] eqn:R1.
  { exists [event_of c1 wb]. cbn [fst snd].
    rewrite T1, D1, L1, E1, Hev.
    split; [reflexivity|]. split; [reflexivity|].
    split; [|cbn [scheduled answered]; frame_side].
    eapply installer_rejected with (pre := []) (ev := event_of c1 wb) (e0 := e1);
      auto; installer_side; now rewrite T1, Hthis. }
  rewrite bind_gets, bind_await_call, P1, Hp.
  set (w1 := after c1 wb) in *.
  set (c2 := pieceManager_install (path w) (pieces params)).
  destruct (after_fields c2 w1) as (T2 & D2 & L2 & P2 & E2 & N2 & M2 & C2).
  assert (B2 : is_build (event_of c2 w1) = false) by reflexivity.
  destruct (rejection (ev_outcome (event_of c2 w1))) as [e2|] eqn:R2.
  { exists [event_of c1 wb; event_of c2 w1]. cbn [fst snd].
    rewrite T2, D2, L2, E2, T1, D1, L1, E1, Hev, <- app_assoc.
    split; [reflexivity|]. split; [reflexivity|].
    split; [|cbn [scheduled answered]; rewrite B1; frame_side].
    eapply installer_rejected
      with (pre := [event_of c1 wb]) (ev := event_of c2 w1) (e0 := e2); auto;
      installer_side; now rewrite T2, T1, Hthis. }
  rewrite bind_gets, bind_await_call, P2, P1, Hp.
  set (w2 := after c2 w1) in *.
  set (c3 := engineInstaller_install (path w)).
  destruct (after_fields c3 w2) as (T3 & D3 & L3 & P3 & E3 & N3 & M3 & C3).
  assert (B3 : is_build (event_of c3 w2) = false) by reflexivity.
  destruct (rejection (ev_outcome (event_of c3 w2))) as [e3|] eqn:R3.
  { exists [event_of c1 wb; event_of c2 w1; event_of c3 w2]. cbn [fst snd].
    rewrite T3, D3, L3, E3, T2, D2, L2, E2, T1, D1, L1, E1, Hev, <- !app_assoc.
    split; [reflexivity|]. split; [reflexivity|].
    split; [|cbn [scheduled answered]; rewrite B1, B2; frame_side].
    eapply installer_rejected
      with (pre := [event_of c1 wb; event_of c2 w1]) (ev := event_of c3 w2)
           (e0 := e3); auto;
      installer_side; now rewrite T3, T2, T1, Hthis. }
  set (w3 := after c3 w2) in *.
  set (jobs := launched (events w3) (now w3)
                 (build_calls (path w) (codeSteps_of params))).
  assert (Hb : bind (buildCodeArchives (codeSteps_of params))
                 (fun _ => modify (set_this (with_state READY))) w3 =
               match first_rejection jobs with
               | Some (j, e) =>
                   (Err e, set_now (Z.max (now w3) (ev_finish j)) (add_events jobs w3))
               | None =>
                   (Ok tt, set_this (with_state READY)
                             (set_now (all_settled_at (now w3) jobs)
                                (add_events jobs w3)))
               end).
  { unfold bind. rewrite buildCodeArchives_run, P3, P2, P1, Hp.
    fold jobs. unfold Promise_all.
    destruct (first_rejection jobs) as [[j e]|]; reflexivity. }
  rewrite Hb; clear Hb.
  assert (Hcalls : map ev_call
            ([event_of c1 wb; event_of c2 w1; event_of c3 w2] ++ jobs)%list =
          build_sequence (path w) (pieces params) (codeSteps_of params)).
  { unfold build_sequence, jobs. rewrite map_app, launched_calls. reflexivity. }
  assert (Hprefix : map ev_call
            ([event_of c1 wb; event_of c2 w1; event_of c3 w2] ++ jobs)%list =
          firstn (List.length
                    ([event_of c1 wb; event_of c2 w1; event_of c3 w2] ++ jobs)%list)
            (build_sequence (path w) (pieces params) (codeSteps_of params))).
  { rewrite <- (length_map ev_call), Hcalls, firstn_all. reflexivity. }
  assert (Hjobs : map ev_call jobs = build_calls (path w) (codeSteps_of params))
    by apply launched_calls.
  assert (Hsched : scheduled (now w)
            ([event_of c1 wb; event_of c2 w1; event_of c3 w2] ++ jobs)%list).
  { cbn [scheduled app]. rewrite B1, B2, B3.
    repeat split; auto; try (symmetry; assumption).
    rewrite <- N3. apply scheduled_builds.
    - apply launched_builds.
    - apply launched_started. }
  assert (Hansw : answered (events w)
            ([event_of c1 wb; event_of c2 w1; event_of c3 w2] ++ jobs)%list).
  { cbn [answered app]. repeat split; auto.
    exact (launched_answered (events w3) (now w3)
             (build_calls (path w) (codeSteps_of params))). }
  exists ([event_of c1 wb; event_of c2 w1; event_of c3 w2] ++ jobs)%list.
  split; [|split; [exact Hprefix|]].
  { destruct (first_rejection jobs) as [[j e]|]; cbn [fst snd];
      world_fields; rewrite E3, E2, E1, Hev, <- !app_assoc; reflexivity. }
  destruct (first_rejection jobs) as [[j e0]|] eqn:F; cbn [fst snd].
  - destruct (first_rejection_Some _ _ _ F) as (Hin & Hrej & Hmin).
    assert (Hstart : ev_started j = now w3).
    { pose proof (launched_started (events w3) (now w3)
                    (build_calls (path w) (codeSteps_of params))) as Hs.
      rewrite Forall_forall in Hs. apply Hs, Hin. }
    world_fields. rewrite T3, T2, T1, D3, D2, D1, L3, L2, L1.
    split;
      [|refine (conj _ (conj _ (conj _ (conj _ (conj Hsched Hansw)))));
        auto; unfold ev_finish in *; lia].
    eapply build_rejected
      with (pre := [event_of c1 wb; event_of c2 w1; event_of c3 w2])
           (jobs := jobs) (start := now w3) (j := j) (e0 := e0);
      auto; installer_side; try apply launched_started.
    world_fields. unfold ev_finish in *. lia.
  - world_fields. rewrite T3, T2, T1, D3, D2, D1, L3, L2, L1.
    destruct (all_settled_at_ge (now w3) jobs) as [Hge Hall].
    split;
      [|refine (conj _ (conj _ (conj _ (conj _ (conj Hsched Hansw))))); auto; lia].
    eapply all_fulfilled
      with (pre := [event_of c1 wb; event_of c2 w1; event_of c3 w2])
           (jobs := jobs) (start := now w3);
      auto; installer_side; try apply launched_started.
    + apply Forall_app; split; [installer_side|].
      now apply first_rejection_None.
    + apply Forall_app; split; [|exact Hall].
      world_fields. repeat constructor; lia.
Qed.

(** The fields after [prepare]: untouched on a slot that was never
    initialised, and otherwise one more borrower and a fresh timestamp,
    whatever becomes of the build. *)
Lemma prepare_this (params : PrepareParams) (w : World) :
  this (snd (prepare params w)) =
  match _state (this w) with
  | CREATED => this w
  | _ => with_state (_state (this (snd (prepare params w))))
           (with_lastUsedAt (now w)
              (with_activeSandboxCount (_activeSandboxCount (this w) + 1) (this w)))
  end.
Proof.
  destruct (_state (this w)) eqn:Hst.
  - rewrite prepare_unfold, Hst. reflexivity.
  - destruct (prepare_initialized params w Hst) as (evs & _ & _ & _ & Hthis & _).
    rewrite Hthis at 1. reflexivity.
  - rewrite prepare_unfold, Hst.
    destruct w as [[k st n t] clock disk history log]. cbn in *. now subst st.
Qed.

Lemma init_unfold (w : World) :
  init w =
  let w0 := add_log (LogCall "CachedSandbox#init" (key (this w)) (_state (this w))
                       (_activeSandboxCount (this w))) w in
  match _state (this w) with
  | CREATED =>
      let c1 := fs_rm (path w) true true in
      match rejection (ev_outcome (event_of c1 w0)) with
      | Some e => (Err e, after c1 w0)
      | None =>
          let w1 := set_dirs (filter (fun d => negb (under (path w) d))) (after c1 w0) in
          let c2 := fs_mkdir (path w) true in
          match rejection (ev_outcome (event_of c2 w1)) with
          | Some e => (Err e, after c2 w1)
          | None =>
              (Ok tt,
               set_this (with_state INITIALIZED)
                 (set_dirs (fun ds => if existsb (String.eqb (path w)) ds
                                      then ds else (ds ++ [path w])%list)
                    (after c2 w1)))
          end
      end
  | _ => (Ok tt, w0)
  end.
Proof.
  destruct w as [[k st n t] clock disk history log].
  destruct st; try reflexivity.
  unfold init, runExclusive, deletePathIfExists, rm, mkdir, logger_debug,
    await_call, invoke, await, bind, gets, modify, ret, after, event_of, path.
  cbn -[String.append under existsb filter Z.max].
  repeat match goal with
         | |- context [rejection ?o] =>
             destruct (rejection o);
             cbn -[String.append under existsb filter Z.max]
         end; reflexivity.
Qed.

Lemma decrementActiveSandboxCount_unfold (w : World) :
  decrementActiveSandboxCount w =
  let w0 := add_log (LogCall "CachedSandbox#decrementActiveSandboxCount"
                       (key (this w)) (_state (this w))
                       (_activeSandboxCount (this w))) w in
  (Ok tt,
   if _activeSandboxCount (this w) =? 0 then w0
   else set_this (with_activeSandboxCount (_activeSandboxCount (this w) - 1)) w0).
Proof.
  destruct w as [[k st n t] clock disk history log].
  unfold decrementActiveSandboxCount, runExclusive, logger_debug, bind, gets,
    modify, ret.
  cbn. destruct (n =? 0); reflexivity.
Qed.

Lemma init_this (w : World) :
  this (snd (init w)) = this w \/
  (_state (this w) = CREATED /\ fst (init w) = Ok tt /\
   this (snd (init w)) = with_state INITIALIZED (this w)).
Proof.
  rewrite init_unfold. cbv zeta.
  destruct (_state (this w)) eqn:Hst; auto.
  repeat match goal with
         | |- context [match rejection ?o with _ => _ end] =>
             destruct (rejection o)
         end; auto.
Qed.

(** *** The borrower count *)

Lemma exec_count_nonneg (op : Op) (w : World) :
  0 <= _activeSandboxCount (this w) ->
  0 <= _activeSandboxCount (this (snd (exec op w))).
Proof.
  intros H. destruct op as [|params| |ticks]; cbn [exec].
  - destruct (init_this w) as [->|(_ & _ & ->)]; cbn; assumption.
  - rewrite prepare_this. destruct (_state (this w)); cbn; lia.
  - rewrite decrementActiveSandboxCount_unfold. cbn.
    destruct (Z.eqb_spec (_activeSandboxCount (this w)) 0); cbn; lia.
  - cbn. assumption.
Qed.

Lemma run_count_nonneg (ops : list Op) (w : World) :
  0 <= _activeSandboxCount (this w) ->
  0 <= _activeSandboxCount (this (run ops w)).
Proof.
  revert w; induction ops as [|op ops IH]; intros w H; cbn [run]; auto.
  apply IH, exec_count_nonneg, H.
Qed.

(** C7. The borrower count is never negative: in every history of
    Initialize, Prepare and Release calls on a constructed slot (however
    many releases it has) the count stays at or above zero; and a Release,
    on any slot, returns without error, leaves a count of zero as it is and
    otherwise takes exactly one off, touching neither the state nor the
    last-used time. *)
Theorem activeSandboxCount_never_negative
    (params : CtorParams) (clock : Z) (disk : list string)
    (history : list Event) (log : list LogRecord) (ops : list Op) (w : World) :
  0 <= _activeSandboxCount
         (this (run ops (new_CachedSandbox params clock disk history log))) /\
  fst (decrementActiveSandboxCount w) = Ok tt /\
  this (snd (decrementActiveSandboxCount w)) =
    (if _activeSandboxCount (this w) =? 0 then this w
     else with_activeSandboxCount (_activeSandboxCount (this w) - 1) (this w)) /\
  events (snd (decrementActiveSandboxCount w)) = events w /\
  dirs (snd (decrementActiveSandboxCount w)) = dirs w.
Proof.
  split.
  - apply run_count_nonneg. cbn. lia.
  - rewrite decrementActiveSandboxCount_unfold. cbn.
    destruct (_activeSandboxCount (this w) =? 0); repeat split.
Qed.

(** C4. On a slot that was never initialised, every Prepare call fails
    with the not-initialised error: the [Error] thrown in the locked body,
    as the [catch] block rethrows it (with name and message intact when the
    enrichment helper keeps them). It invokes no collaborator and leaves
    the borrower count, the last-used time and the state as they were. *)
Theorem prepare_before_init_fails (params : PrepareParams) (w : World) :
  _state (this w) = CREATED ->
  let notInitialized :=
    new_Error ("[CachedSandbox#prepare] not initialized, Key=" ++ key (this w)
                 ++ " state=" ++ stateText CREATED) in
  fst (prepare params w) =
    Err (enriched params (snd (prepare params w)) notInitialized) /\
  (keeps_kind ->
   err_name (enriched params (snd (prepare params w)) notInitialized) = "Error" /\
   err_message (enriched params (snd (prepare params w)) notInitialized) =
     err_message notInitialized) /\
  this (snd (prepare params w)) = this w /\
  events (snd (prepare params w)) = events w /\
  dirs (snd (prepare params w)) = dirs w /\
  now (snd (prepare params w)) = now w.
Proof.
  intros Hst notInitialized. rewrite prepare_unfold, Hst. cbn [fst snd].
  split; [reflexivity|]. split; [|repeat split].
  intros Hkind. unfold enriched.
  destruct (Hkind notInitialized "[CachedSandbox#prepare]"
              (SandboxContext
                 (contextValue_of (pieces params) (codeSteps_of params)
                    (add_log (LogCall "CachedSandbox#prepare" (key (this w))
                                CREATED (_activeSandboxCount (this w))) w))))
    as [Hname Hmsg].
  split; [rewrite Hname; reflexivity | exact Hmsg].
Qed.

(** *** The last-used time *)

Lemma exec_lastUsedAt (op : Op) (w : World) :
  lastUsedAt (snd (exec op w)) =
  match op with
  | Prepare _ =>
      match _state (this w) with
      | CREATED => lastUsedAt w
      | _ => now w
      end
  | _ => lastUsedAt w
  end.
Proof.
  unfold lastUsedAt. destruct op as [|params| |ticks]; cbn [exec].
  - destruct (init_this w) as [->|(_ & _ & ->)]; reflexivity.
  - rewrite prepare_this. destruct (_state (this w)); reflexivity.
  - rewrite decrementActiveSandboxCount_unfold. cbn.
    destruct (_activeSandboxCount (this w) =? 0); reflexivity.
  - reflexivity.
Qed.

Lemma run_lastUsedAt (ops : list Op) (w : World) :
  lastUsedAt (run ops w) = last_accepted_prepare ops w (lastUsedAt w).
Proof.
  revert w; induction ops as [|op ops IH]; intros w; cbn [run last_accepted_prepare];
    [reflexivity|].
  rewrite IH, exec_lastUsedAt.
  destruct op; reflexivity.
Qed.

(** C2, as the code has it. The value of [lastUsedAt()] changes in one
    place only: a Prepare call on a slot that is past [CREATED] sets it to
    the time of that call, before the build is attempted and whether or not
    the call then succeeds. Initialize, Release, the passing of time and a
    Prepare call refused for want of initialisation leave it alone. So at
    every point of a slot's life [lastUsedAt()] is the time of the latest
    Prepare call that was let past the initialisation check, and the time
    of construction before the first such call. *)
Theorem lastUsedAt_set_by_accepted_prepare
    (params : CtorParams) (clock : Z) (disk : list string)
    (history : list Event) (log : list LogRecord) (ops : list Op)
    (op : Op) (w : World) :
  lastUsedAt (snd (exec op w)) =
    match op with
    | Prepare _ =>
        match _state (this w) with
        | CREATED => lastUsedAt w
        | INITIALIZED | READY => now w
        end
    | Initialize | Release | Idle _ => lastUsedAt w
    end /\
  lastUsedAt (run ops (new_CachedSandbox params clock disk history log)) =
    last_accepted_prepare ops
      (new_CachedSandbox params clock disk history log) clock.
Proof.
  split.
  - rewrite exec_lastUsedAt. destruct op; reflexivity.
  - apply run_lastUsedAt.
Qed.

Lemma run_lastUsedAt_without_prepare (ops : list Op) (w : World) :
  forallb (fun op => negb (is_prepare op)) ops = true ->
  lastUsedAt (run ops w) = lastUsedAt w.
Proof.
  revert w; induction ops as [|op ops IH]; intros w H; cbn [run]; [reflexivity|].
  cbn [forallb] in H. apply andb_true_iff in H as [Hop Hops].
  rewrite (IH _ Hops), exec_lastUsedAt.
  destruct op; try reflexivity. discriminate.
Qed.

(** C10. Until a Prepare call is made, [lastUsedAt()] is the time at which
    the slot was constructed: the field starts as the clock reading of the
    constructor, and no history of Initialize and Release calls (and idle
    time) moves it. *)
Theorem lastUsedAt_starts_at_construction
    (params : CtorParams) (clock : Z) (disk : list string)
    (history : list Event) (log : list LogRecord) (ops : list Op) :
  forallb (fun op => negb (is_prepare op)) ops = true ->
  lastUsedAt (new_CachedSandbox params clock disk history log) = clock /\
  lastUsedAt (run ops (new_CachedSandbox params clock disk history log)) = clock.
Proof.
  intros H. split; [reflexivity|].
  now rewrite run_lastUsedAt_without_prepare.
Qed.

(** *** The optional argument *)

Lemma prepare_no_steps_no_build (params : PrepareParams) (w : World) :
  codeSteps_of params = [] ->
  Forall (fun ev => is_build ev = false)
    (new_events w (snd (prepare params w))).
Proof.
  intros Hnone.
  destruct (_state (this w)) eqn:Hst.
  - rewrite prepare_unfold, Hst. cbn.
    rewrite (new_events_app w _ []); [constructor|]. cbn. now rewrite app_nil_r.
  - destruct (prepare_initialized params w Hst) as (evs & Hev & _ & Hout & _).
    rewrite (new_events_app _ _ _ Hev).
    destruct Hout; subst evs; auto.
    + rewrite Hnone in Hjobs. destruct jobs; [|discriminate].
      now rewrite app_nil_r.
    + rewrite Hnone in Hjobs. destruct jobs; [|discriminate].
      now rewrite app_nil_r.
  - rewrite prepare_unfold, Hst. cbn.
    rewrite (new_events_app w _ []); [constructor|]. cbn. now rewrite app_nil_r.
Qed.

(** C9. [codeSteps] may be left out of the argument of [prepare]: the call
    is then, result and world, the call with [codeSteps: []], and it starts
    no code build. *)
Theorem prepare_codeSteps_default (ps : list PiecePackage) (w : World) :
  prepare {| pieces := ps; codeSteps := None |} w =
    prepare {| pieces := ps; codeSteps := Some [] |} w /\
  Forall (fun ev => is_build ev = false)
    (new_events w (snd (prepare {| pieces := ps; codeSteps := None |} w))).
Proof.
  split; [reflexivity|].
  apply prepare_no_steps_no_build. reflexivity.
Qed.

(** *** The build sequence *)

Lemma prepare_initialized_new (params : PrepareParams) (w : World) :
  _state (this w) = INITIALIZED ->
  map ev_call (new_events w (snd (prepare params w))) =
    firstn (List.length (new_events w (snd (prepare params w))))
      (build_sequence (path w) (pieces params) (codeSteps_of params)) /\
  prepare_outcome params w (fst (prepare params w)) (snd (prepare params w))
    (new_events w (snd (prepare params w))) /\
  this (snd (prepare params w)) =
    with_state (_state (this (snd (prepare params w)))) (this (borrowed w)) /\
  dirs (snd (prepare params w)) = dirs w /\
  now w <= now (snd (prepare params w)) /\
  scheduled (now w) (new_events w (snd (prepare params w))) /\
  answered (events w) (new_events w (snd (prepare params w))).
Proof.
  intros Hst.
  destruct (prepare_initialized params w Hst)
    as (evs & Hev & Hprefix & Hout & Hthis & Hdirs & _ & Hnow & Hsched & Hansw).
  rewrite (new_events_app _ _ _ Hev). auto 12.
Qed.

Lemma build_sequence_length (p : string) (ps : list PiecePackage)
    (steps : list CodeArtifact) :
  List.length (build_sequence p ps steps) = (3 + List.length steps)%nat.
Proof. unfold build_sequence, build_calls. cbn. now rewrite length_map. Qed.

Lemma whole_sequence (params : PrepareParams) (w : World) (pre jobs : list Event) :
  List.length pre = 3%nat ->
  map ev_call jobs = build_calls (path w) (codeSteps_of params) ->
  firstn (List.length (pre ++ jobs))
    (build_sequence (path w) (pieces params) (codeSteps_of params)) =
  build_sequence (path w) (pieces params) (codeSteps_of params).
Proof.
  intros Hpre Hjobs.
  assert (Hlen : List.length jobs = List.length (codeSteps_of params)).
  { rewrite <- (length_map ev_call), Hjobs. unfold build_calls.
    now rewrite length_map. }
  rewrite length_app, Hpre, Hlen,
    <- (build_sequence_length (path w) (pieces params)).
  apply firstn_all.
Qed.

Lemma prepare_initialized_ready_iff (params : PrepareParams) (w : World) :
  _state (this w) = INITIALIZED ->
  map ev_call (new_events w (snd (prepare params w))) =
    firstn (List.length (new_events w (snd (prepare params w))))
      (build_sequence (path w) (pieces params) (codeSteps_of params)) /\
  (_state (this (snd (prepare params w))) = READY <->
     map ev_call (new_events w (snd (prepare params w))) =
       build_sequence (path w) (pieces params) (codeSteps_of params) /\
     Forall succeeded (new_events w (snd (prepare params w)))) /\
  (_state (this (snd (prepare params w))) = READY ->
     Forall (fun ev => ev_finish ev <= now (snd (prepare params w)))
       (new_events w (snd (prepare params w)))) /\
  (fst (prepare params w) = Ok tt <->
     _state (this (snd (prepare params w))) = READY).
Proof.
  intros Hst.
  destruct (prepare_initialized_new params w Hst) as (Hprefix & Hout & _).
  split; [exact Hprefix|].
  destruct Hout.
  - rewrite Hstate, Hres. repeat split; try discriminate.
    intros [_ Hall]. rewrite Hevs in Hall.
    apply Forall_app in Hall as [_ Hall]. inversion Hall; subst.
    unfold succeeded in *. congruence.
  - rewrite Hstate, Hres. repeat split; try discriminate.
    intros [_ Hall]. rewrite Hevs in Hall.
    apply Forall_app in Hall as [_ Hall].
    apply first_rejection_None in Hall. congruence.
  - rewrite Hstate, Hres. repeat split; auto.
    rewrite Hprefix, Hevs. now apply whole_sequence.
Qed.

Lemma prepare_initialized_first (params : PrepareParams) (w : World) :
  _state (this w) = INITIALIZED ->
  exists first rest,
    new_events w (snd (prepare params w)) = first :: rest /\
    ev_call first = packageManager_init (path w).
Proof.
  intros Hst.
  destruct (prepare_initialized_new params w Hst) as (Hprefix & Hout & _).
  destruct (new_events w (snd (prepare params w))) as [|first rest] eqn:Hevs.
  - exfalso. destruct Hout.
    + destruct pre; discriminate.
    + destruct pre; discriminate.
    + destruct pre; discriminate.
  - exists first, rest. split; [reflexivity|].
    cbn in Hprefix. now inversion Hprefix.
Qed.

Lemma prepare_rejection_reported (params : PrepareParams) (w : World) :
  _state (this w) = INITIALIZED ->
  Exists failed (new_events w (snd (prepare params w))) ->
  _state (this (snd (prepare params w))) = INITIALIZED /\
  exists ev e0,
    In ev (new_events w (snd (prepare params w))) /\
    rejection (ev_outcome ev) = Some e0 /\
    fst (prepare params w) = Err (enriched params (snd (prepare params w)) e0).
Proof.
  intros Hst Hfail.
  destruct (prepare_initialized_new params w Hst) as (_ & Hout & _).
  destruct Hout.
  - split; [assumption|]. exists ev, e0. rewrite Hevs.
    repeat split; auto. apply in_or_app; right; now left.
  - destruct (first_rejection_Some _ _ _ Hfirst) as (Hin & Hrej & _).
    split; [assumption|]. exists j, e0. rewrite Hevs.
    repeat split; auto. apply in_or_app; now right.
  - exfalso. apply Exists_exists in Hfail as (ev & Hin & Hf).
    rewrite Forall_forall in Hok. specialize (Hok _ Hin).
    unfold failed, succeeded in *. congruence.
Qed.

Lemma prepare_all_succeeded (params : PrepareParams) (w : World) :
  _state (this w) = INITIALIZED ->
  Forall succeeded (new_events w (snd (prepare params w))) ->
  map ev_call (new_events w (snd (prepare params w))) =
    build_sequence (path w) (pieces params) (codeSteps_of params) /\
  _state (this (snd (prepare params w))) = READY /\
  fst (prepare params w) = Ok tt.
Proof.
  intros Hst Hall.
  destruct (prepare_initialized_new params w Hst) as (Hprefix & Hout & _).
  destruct Hout.
  - exfalso. rewrite Hevs in Hall.
    apply Forall_app in Hall as [_ Hall]. inversion Hall; subst.
    unfold succeeded in *. congruence.
  - exfalso. rewrite Hevs in Hall.
    apply Forall_app in Hall as [_ Hall].
    apply first_rejection_None in Hall. congruence.
  - repeat split; auto.
    rewrite Hprefix, Hevs. now apply whole_sequence.
Qed.

(** C3. When a step of the build sequence is rejected during a Prepare
    call on an initialized slot, the call throws that error (through the
    [catch] block); the state is still [INITIALIZED], the directory list is
    untouched, and the borrower count and last-used time keep the values
    set at the top of the call. A Prepare call made next starts the
    sequence again at the dependency-context init, follows the same order,
    and if nothing is rejected this time runs all of it and reaches
    [READY]. *)
Theorem failed_build_is_retried_from_initialized
    (params retry : PrepareParams) (w : World) :
  _state (this w) = INITIALIZED ->
  Exists failed (new_events w (snd (prepare params w))) ->
  let w' := snd (prepare params w) in
  let w'' := snd (prepare retry w') in
  (exists ev e0,
     In ev (new_events w w') /\ rejection (ev_outcome ev) = Some e0 /\
     fst (prepare params w) = Err (enriched params w' e0)) /\
  _state (this w') = INITIALIZED /\
  _activeSandboxCount (this w') = _activeSandboxCount (this w) + 1 /\
  lastUsedAt w' = now w /\
  dirs w' = dirs w /\
  path w' = path w /\
  (exists first rest,
     new_events w' w'' = first :: rest /\
     ev_call first = packageManager_init (path w)) /\
  map ev_call (new_events w' w'') =
    firstn (List.length (new_events w' w''))
      (build_sequence (path w) (pieces retry) (codeSteps_of retry)) /\
  (Forall succeeded (new_events w' w'') ->
     map ev_call (new_events w' w'') =
       build_sequence (path w) (pieces retry) (codeSteps_of retry) /\
     _state (this w'') = READY /\ fst (prepare retry w') = Ok tt).
Proof.
  intros Hst Hfail. cbv zeta.
  destruct (prepare_rejection_reported params w Hst Hfail) as (Hst' & Hrep).
  destruct (prepare_initialized_new params w Hst) as (_ & _ & Hthis & Hdirs & _).
  assert (Hpath : path (snd (prepare params w)) = path w).
  { unfold path. now rewrite Hthis. }
  split; [exact Hrep|]. split; [exact Hst'|].
  split; [now rewrite Hthis|]. split; [unfold lastUsedAt; now rewrite Hthis|].
  split; [exact Hdirs|]. split; [exact Hpath|].
  rewrite <- Hpath.
  split; [now apply prepare_initialized_first|].
  split; [now apply prepare_initialized_new|].
  now apply prepare_all_succeeded.
Qed.

(** *** Concurrent builds *)

Lemma build_calls_are_builds (p : string) (steps : list CodeArtifact)
    (jobs : list Event) :
  map ev_call jobs = build_calls p steps ->
  Forall (fun ev => is_build ev = true) jobs.
Proof.
  revert steps; induction jobs as [|j jobs IH]; intros steps H; [constructor|].
  destruct steps as [|a steps]; [discriminate|].
  cbn in H. inversion H as [[Hj Hrest]].
  constructor; [|now apply (IH steps)].
  unfold is_build. now rewrite Hj.
Qed.

Lemma filter_none {A} (f : A -> bool) (l : list A) :
  Forall (fun a => f a = false) l -> filter f l = [].
Proof.
  induction 1 as [|a l Ha _ IH]; cbn; [reflexivity|].
  now rewrite Ha.
Qed.

Lemma prepare_installer_awaited (params : PrepareParams) (w : World) :
  _state (this w) = INITIALIZED ->
  forall (i : nat) (ev : Event),
    nth_error (new_events w (snd (prepare params w))) i = Some ev ->
    is_build ev = false ->
    (S i < List.length (new_events w (snd (prepare params w))))%nat ->
    succeeded ev.
Proof.
  intros Hst i ev Hnth Hinst Hnext.
  destruct (prepare_initialized_new params w Hst) as (_ & Hout & _).
  destruct Hout.
  - rewrite Hevs in Hnth, Hnext. rewrite length_app in Hnext. cbn in Hnext.
    rewrite nth_error_app1 in Hnth by lia.
    rewrite Forall_forall in Hok. eapply Hok, nth_error_In, Hnth.
  - rewrite Hevs in Hnth.
    destruct (Nat.lt_ge_cases i (List.length pre)) as [Hi|Hi].
    + rewrite nth_error_app1 in Hnth by assumption.
      rewrite Forall_forall in Hok. eapply Hok, nth_error_In, Hnth.
    + rewrite nth_error_app2 in Hnth by assumption.
      apply nth_error_In in Hnth.
      pose proof (build_calls_are_builds _ _ _ Hjobs) as Hb.
      rewrite Forall_forall in Hb. specialize (Hb _ Hnth). congruence.
  - rewrite Forall_forall in Hok. eapply Hok, nth_error_In, Hnth.
Qed.

(** C6. On an initialized slot [prepare] invokes the collaborators in the
    order dependency-context init, package install, engine install, code
    builds. The dependency-context init is always invoked, first; each
    installer is awaited and the next step is invoked only when it was
    fulfilled; what is invoked is thus an initial part of the sequence, and
    the whole of it when nothing is rejected. Every invocation is a real
    one, settled as the collaborator answers it. The state becomes [READY]
    exactly when the whole sequence was invoked and nothing in it was
    rejected, and then every invocation has finished; the call returns
    normally exactly then. On a slot that is already [READY] the call
    invokes nothing and returns normally. *)
Theorem prepare_runs_build_sequence_in_order (params : PrepareParams) (w : World) :
  let r := fst (prepare params w) in
  let w' := snd (prepare params w) in
  let evs := new_events w w' in
  let sequence := build_sequence (path w) (pieces params) (codeSteps_of params) in
  match _state (this w) with
  | INITIALIZED =>
      map ev_call evs = firstn (List.length evs) sequence /\
      scheduled (now w) evs /\
      (_state (this w') = READY <->
         map ev_call evs = sequence /\ Forall succeeded evs) /\
      (_state (this w') = READY ->
         Forall (fun ev => ev_finish ev <= now w') evs) /\
      (r = Ok tt <-> _state (this w') = READY) /\
      (exists first rest,
         evs = first :: rest /\
         ev_call first = packageManager_init (path w)) /\
      answered (events w) evs /\
      (forall (i : nat) (ev : Event),
         nth_error evs i = Some ev -> is_build ev = false ->
         (S i < List.length evs)%nat -> succeeded ev) /\
      (Forall succeeded evs ->
         map ev_call evs = sequence /\
         _state (this w') = READY /\ r = Ok tt)
  | READY => r = Ok tt /\ evs = [] /\ _state (this w') = READY
  | CREATED => evs = []
  end.
Proof.
  cbv zeta. destruct (_state (this w)) eqn:Hst.
  - rewrite prepare_unfold, Hst. cbn.
    apply new_events_app. cbn. now rewrite app_nil_r.
  - destruct (prepare_initialized_ready_iff params w Hst)
      as (Hprefix & Hiff & Hfin & Hok).
    destruct (prepare_initialized_new params w Hst)
      as (_ & _ & _ & _ & _ & Hsched & Hansw).
    refine (conj Hprefix (conj Hsched (conj Hiff (conj Hfin (conj Hok
              (conj _ (conj Hansw (conj _ _)))))))).
    + now apply prepare_initialized_first.
    + now apply prepare_installer_awaited.
    + now apply prepare_all_succeeded.
  - rewrite prepare_unfold, Hst. cbn. repeat split; auto.
    apply new_events_app. cbn. now rewrite app_nil_r.
Qed.

(** What [prepare] does when a code build is rejected, in general (the
    defect recorded for C1 below rests on it). When a code build is
    rejected during a Prepare call on an initialized slot, every artifact
    of [codeSteps] has had its
    build started (all on the same tick, none awaited before the next is
    started), the call fails with the rejection that comes first
    ([Promise.all] rejects with it at once: the call ends on the tick that
    build ends, no later than any other rejected build), and the state
    stays [INITIALIZED]. Builds that take longer are not waited for. *)
Theorem build_failure_ends_prepare_at_first_rejection
    (params : PrepareParams) (w : World) :
  _state (this w) = INITIALIZED ->
  Exists failed (filter is_build (new_events w (snd (prepare params w)))) ->
  let w' := snd (prepare params w) in
  let jobs := filter is_build (new_events w w') in
  map ev_call jobs = build_calls (path w) (codeSteps_of params) /\
  (exists start, Forall (fun ev => ev_started ev = start) jobs) /\
  _state (this w') = INITIALIZED /\
  exists j e0,
    first_rejection jobs = Some (j, e0) /\
    In j jobs /\ rejection (ev_outcome j) = Some e0 /\
    fst (prepare params w) = Err (enriched params w' e0) /\
    now w' = ev_finish j /\
    (forall j', In j' jobs -> failed j' -> now w' <= ev_finish j').
Proof.
  intros Hst Hfail. cbv zeta.
  destruct (prepare_initialized_new params w Hst) as (_ & Hout & _).
  destruct Hout.
  - exfalso. rewrite (filter_none _ _ Hnobuild) in Hfail. inversion Hfail.
  - assert (Hfilter : filter is_build (new_events w (snd (prepare params w))) = jobs).
    { rewrite Hevs, filter_app, (filter_none _ _ Hnobuild).
      apply filter_all. eapply build_calls_are_builds; eassumption. }
    rewrite Hfilter.
    destruct (first_rejection_Some _ _ _ Hfirst) as (Hin & Hrej & Hmin).
    split; [assumption|]. split; [now exists start|]. split; [assumption|].
    exists j, e0. rewrite Hnow. repeat split; auto.
  - exfalso. apply Exists_exists in Hfail as (ev & Hin & Hf).
    apply filter_In in Hin as [Hin _].
    rewrite Forall_forall in Hok. specialize (Hok _ Hin).
    unfold failed, succeeded in *. congruence.
Qed.

(** *** Errors *)

Lemma init_outcome (w : World) :
  match fst (init w) with
  | Ok _ => Forall succeeded (new_events w (snd (init w)))
  | Err e =>
      exists ev,
        In ev (new_events w (snd (init w))) /\
        rejection (ev_outcome ev) = Some e
  end.
Proof.
  rewrite init_unfold. cbv zeta.
  destruct (_state (this w)) eqn:Hst;
    try (cbn [fst snd]; rewrite (new_events_app w _ []);
         [constructor | cbn; now rewrite app_nil_r]).
  set (w0 := add_log _ w).
  set (c1 := fs_rm (path w) true true).
  destruct (after_fields c1 w0) as (_ & _ & _ & _ & E1 & _).
  destruct (rejection (ev_outcome (event_of c1 w0))) as [e1|] eqn:R1.
  { cbn [fst snd]. rewrite (new_events_app w _ [event_of c1 w0]); [|exact E1].
    exists (event_of c1 w0). split; [now left|assumption]. }
  set (w1 := set_dirs _ (after c1 w0)).
  set (c2 := fs_mkdir (path w) true).
  destruct (after_fields c2 w1) as (_ & _ & _ & _ & E2 & _).
  assert (E12 : events (after c2 w1) =
                (events w ++ [event_of c1 w0; event_of c2 w1])%list).
  { rewrite E2. unfold w1. cbn [events set_dirs]. rewrite E1, <- app_assoc.
    reflexivity. }
  destruct (rejection (ev_outcome (event_of c2 w1))) as [e2|] eqn:R2.
  { cbn [fst snd]. rewrite (new_events_app w _ _ E12).
    exists (event_of c2 w1). split; [right; now left|assumption]. }
  cbn [fst snd].
  rewrite (new_events_app w _ [event_of c1 w0; event_of c2 w1]);
    [|cbn [events set_this set_dirs]; exact E12].
  repeat constructor; assumption.
Qed.

(** C5, as the code has it. No rejection of a collaborator is swallowed,
    and the error that ends a call keeps its kind. [init] throws the
    rejection of [rm] or [mkdir] as it received it, adding nothing.
    [prepare] throws what [enrichErrorContext] returns for the rejection
    under the key of its [catch] block, which has the name and message of
    the rejection when the helper keeps them; when it fails on a slot past
    [CREATED], that rejection is one of a collaborator it invoked (of
    several rejected builds, one is reported). A call that returns normally
    has had no rejection at all. *)
Theorem collaborator_errors_are_rethrown (params : PrepareParams) (w : World) :
  keeps_kind ->
  match fst (init w) with
  | Ok _ => Forall succeeded (new_events w (snd (init w)))
  | Err e =>
      exists ev,
        In ev (new_events w (snd (init w))) /\
        rejection (ev_outcome ev) = Some e
  end /\
  match fst (prepare params w) with
  | Ok _ => Forall succeeded (new_events w (snd (prepare params w)))
  | Err e =>
      (_state (this w) = CREATED /\ new_events w (snd (prepare params w)) = []) \/
      exists ev e0,
        In ev (new_events w (snd (prepare params w))) /\
        rejection (ev_outcome ev) = Some e0 /\
        e = enrichErrorContext e0 "[CachedSandbox#prepare]"
              (SandboxContext
                 (contextValue_of (pieces params) (codeSteps_of params)
                    (snd (prepare params w)))) /\
        err_name e = err_name e0 /\
        err_message e = err_message e0
  end.
Proof.
  intros Hkind. split; [apply init_outcome|].
  destruct (_state (this w)) eqn:Hst.
  - rewrite prepare_unfold, Hst. cbn [fst snd]. left. split; [reflexivity|].
    apply new_events_app. cbn. now rewrite app_nil_r.
  - destruct (prepare_initialized_new params w Hst) as (_ & Hout & _).
    destruct Hout; rewrite Hres.
    + right. exists ev, e0. rewrite Hevs.
      split; [apply in_or_app; right; now left|].
      split; [assumption|]. split; [reflexivity|]. apply Hkind.
    + destruct (first_rejection_Some _ _ _ Hfirst) as (Hin & Hrej & _).
      right. exists j, e0. rewrite Hevs.
      split; [apply in_or_app; now right|].
      split; [assumption|]. split; [reflexivity|]. apply Hkind.
    + assumption.
  - rewrite prepare_unfold, Hst. cbn [fst snd].
    rewrite (new_events_app w _ []); [constructor|].
    cbn. now rewrite app_nil_r.
Qed.

(** *** Initialisation *)

Lemma mkdir_makes_directory (p : string) (ds : list string) :
  In p (if existsb (String.eqb p) ds then ds else (ds ++ [p])%list).
Proof.
  destruct (existsb (String.eqb p) ds) eqn:E.
  - apply existsb_exists in E as (d & Hin & Heq).
    apply String.eqb_eq in Heq. now subst d.
  - apply in_or_app; right; now left.
Qed.

Lemma init_noop (v : World) :
  _state (this v) <> CREATED ->
  init v = (Ok tt, add_log (LogCall "CachedSandbox#init" (key (this v))
                              (_state (this v)) (_activeSandboxCount (this v))) v).
Proof.
  intros H. rewrite init_unfold. cbv zeta.
  destruct (_state (this v)); congruence.
Qed.

Lemma init_ok_state (w : World) :
  fst (init w) = Ok tt ->
  _state (this (snd (init w))) <> CREATED /\
  (_state (this w) = CREATED ->
   _state (this (snd (init w))) = INITIALIZED /\
   In (path w) (dirs (snd (init w)))).
Proof.
  rewrite init_unfold. cbv zeta.
  destruct (_state (this w)) eqn:Hst; cbn [fst snd this add_log];
    try (intros _; split; congruence).
  repeat match goal with
         | |- context [match rejection ?o with _ => _ end] =>
             destruct (rejection o)
         end; cbn [fst snd]; try discriminate.
  intros _. split; [cbn; discriminate|]. intros _. split; [reflexivity|].
  cbn [dirs set_this set_dirs]. apply mkdir_makes_directory.
Qed.

(** C8. Initialize is idempotent. When a first call has returned without
    error, a second call made right after it returns without error too and
    changes neither a field nor the directories nor the clock, and invokes
    nothing: if the slot started as [CREATED] it is [INITIALIZED] and its
    directory exists, after one call as after two. More generally [init] on
    any slot [v] that is past [CREATED] returns at once, touching nothing. *)
Theorem init_is_idempotent (w v : World) :
  fst (init w) = Ok tt ->
  _state (this v) <> CREATED ->
  let w1 := snd (init w) in
  let w2 := snd (init w1) in
  (fst (init w1) = Ok tt /\
   this w2 = this w1 /\ dirs w2 = dirs w1 /\ events w2 = events w1 /\
   now w2 = now w1 /\
   (_state (this w) = CREATED ->
    _state (this w1) = INITIALIZED /\ In (path w) (dirs w1) /\
    _state (this w2) = INITIALIZED /\ In (path w) (dirs w2))) /\
  (fst (init v) = Ok tt /\
   this (snd (init v)) = this v /\ dirs (snd (init v)) = dirs v /\
   events (snd (init v)) = events v /\ now (snd (init v)) = now v).
Proof.
  intros Hok Hv. cbv zeta.
  destruct (init_ok_state w Hok) as (Hpast & Hcreated).
  rewrite (init_noop _ Hpast), (init_noop _ Hv). cbn [fst snd this dirs events now add_log].
  repeat split; auto; apply Hcreated; assumption.
Qed.

End Proofs.

(** * The life of a slot *)

(** What follows is about the class as a whole: how [init], [prepare] and
    [decrementActiveSandboxCount] compose over a history, and what [path],
    [isInUse], [buildCodeArchives], the logging and the [catch] block of
    [prepare] do. *)

Section Lifecycle.
Context {T : SharedTypes} {X : Externals}.

(** How far a slot has come: [CREATED], then [INITIALIZED], then [READY]. *)
Definition rank (s : CachedSandboxState) : nat :=
  match s with
  | CREATED => 0
  | INITIALIZED => 1
  | READY => 2
  end.

(** The invocations that touch the slot's directory itself. *)
Definition is_fs (ev : Event) : bool :=
  match ev_call ev with
  | fs_rm _ _ _ | fs_mkdir _ _ => true
  | _ => false
  end.

(** The record [logger.debug] writes on entry to the method behind [op]. *)
Definition entry_log (op : Op) (w : World) : list LogRecord :=
  let record name :=
    [LogCall name (key (this w)) (_state (this w)) (_activeSandboxCount (this w))] in
  match op with
  | Initialize => record "CachedSandbox#init"
  | Prepare _ => record "CachedSandbox#prepare"
  | Release => record "CachedSandbox#decrementActiveSandboxCount"
  | Idle _ => []
  end.

(** ** One call *)

Lemma firstn_incl {A} (n : nat) (l : list A) (x : A) :
  In x (firstn n l) -> In x l.
Proof.
  revert l; induction n as [|n IH]; intros [|a l]; cbn; try tauto.
  intros [->|H]; auto.
Qed.

Lemma build_sequence_no_fs (p : string) (ps : list PiecePackage)
    (steps : list CodeArtifact) (evs : list Event) (n : nat) :
  map ev_call evs = firstn n (build_sequence p ps steps) ->
  Forall (fun ev => is_fs ev = false) evs.
Proof.
  intros H. apply Forall_forall. intros ev Hin.
  assert (Hc : In (ev_call ev) (build_sequence p ps steps)).
  { apply (firstn_incl n). rewrite <- H. now apply in_map. }
  unfold is_fs. unfold build_sequence, build_calls in Hc.
  apply in_app_or in Hc as [Hc|Hc].
  - cbn in Hc. destruct Hc as [<-|[<-|[<-|[]]]]; reflexivity.
  - apply in_map_iff in Hc as (a & <- & _). reflexivity.
Qed.

(** What one [prepare] does to the fields and to the record of
    invocations, by the state it finds. *)
Lemma prepare_step (params : PrepareParams) (w : World) :
  exists evs,
    events (snd (prepare params w)) = (events w ++ evs)%list /\
    Forall (fun ev => is_fs ev = false) evs /\
    (_state (this w) <> INITIALIZED -> evs = []) /\
    dirs (snd (prepare params w)) = dirs w /\
    now w <= now (snd (prepare params w)) /\
    logs (snd (prepare params w)) = (logs w ++ entry_log (Prepare params) w)%list /\
    (_state (this (snd (prepare params w))) = _state (this w) \/
     (_state (this w) = INITIALIZED /\
      _state (this (snd (prepare params w))) = READY)).
Proof.
  destruct (_state (this w)) eqn:Hst.
  - exists []. rewrite prepare_unfold, Hst. cbn.
    rewrite app_nil_r, Hst. repeat split; auto. lia.
  - destruct (prepare_initialized params w Hst)
      as (evs & Hev & Hprefix & Hout & Hthis & Hdirs & Hlogs & Hnow & _).
    exists evs. split; [assumption|].
    split; [eapply build_sequence_no_fs; eassumption|].
    split; [congruence|]. split; [assumption|]. split; [assumption|].
    split; [rewrite Hlogs; cbn; now rewrite Hst|].
    destruct Hout; rewrite Hstate; auto.
  - exists []. rewrite prepare_unfold, Hst. cbn.
    rewrite app_nil_r, Hst. repeat split; auto. lia.
Qed.

(** What one [init] does, by the state it finds. *)
Lemma init_step (w : World) :
  exists evs,
    events (snd (init w)) = (events w ++ evs)%list /\
    (_state (this w) <> CREATED -> evs = [] /\ dirs (snd (init w)) = dirs w) /\
    now w <= now (snd (init w)) /\
    logs (snd (init w)) = (logs w ++ entry_log Initialize w)%list.
Proof.
  rewrite init_unfold. cbv zeta.
  destruct (_state (this w)) eqn:Hst;
    try (exists []; cbn; rewrite app_nil_r, ?Hst; repeat split; auto; lia).
  set (w0 := add_log _ w).
  set (c1 := fs_rm (path w) true true).
  destruct (after_fields c1 w0) as (_ & _ & L1 & _ & E1 & _ & M1 & _).
  destruct (rejection (ev_outcome (event_of c1 w0))) as [e1|] eqn:R1.
  { exists [event_of c1 w0]. cbn [fst snd]. rewrite E1, L1.
    repeat split; try congruence; auto. unfold w0; cbn; now rewrite Hst. }
  set (w1 := set_dirs _ (after c1 w0)).
  set (c2 := fs_mkdir (path w) true).
  destruct (after_fields c2 w1) as (_ & _ & L2 & _ & E2 & _ & M2 & _).
  assert (E12 : events (after c2 w1) =
                (events w ++ [event_of c1 w0; event_of c2 w1])%list).
  { rewrite E2. unfold w1. cbn [events set_dirs]. rewrite E1, <- app_assoc.
    reflexivity. }
  assert (L12 : logs (after c2 w1) = (logs w ++ entry_log Initialize w)%list).
  { rewrite L2. unfold w1. cbn [logs set_dirs]. rewrite L1.
    unfold w0; cbn; now rewrite Hst. }
  assert (M12 : now w <= now (after c2 w1)).
  { assert (H1 : now w1 = now (after c1 w0)) by reflexivity.
    assert (H0 : now w0 = now w) by reflexivity. lia. }
  exists [event_of c1 w0; event_of c2 w1].
  destruct (rejection (ev_outcome (event_of c2 w1))) as [e2|] eqn:R2;
    cbn [fst snd events logs now set_this set_dirs];
    repeat split; try congruence; auto.
Qed.

Lemma exec_key_rank (op : Op) (w : World) :
  key (this (snd (exec op w))) = key (this w) /\
  (rank (_state (this w)) <= rank (_state (this (snd (exec op w)))))%nat.
Proof.
  destruct op as [|params| |ticks]; cbn [exec].
  - destruct (init_this w) as [->|(Hst & _ & ->)]; [auto|].
    rewrite Hst. cbn. auto.
  - destruct (prepare_step params w) as (_ & _ & _ & _ & _ & _ & _ & Hstate).
    split.
    + rewrite prepare_this. destruct (_state (this w)); reflexivity.
    + destruct Hstate as [->|[Hst ->]]; [lia | rewrite Hst; cbn; lia].
  - rewrite decrementActiveSandboxCount_unfold. cbn.
    destruct (_activeSandboxCount (this w) =? 0); cbn; auto.
  - cbn. auto.
Qed.

Lemma exec_events (op : Op) (w : World) :
  exists evs,
    events (snd (exec op w)) = (events w ++ evs)%list /\
    (_state (this w) <> CREATED ->
     Forall (fun ev => is_fs ev = false) evs /\
     dirs (snd (exec op w)) = dirs w) /\
    (_state (this w) = READY -> evs = []) /\
    logs (snd (exec op w)) = (logs w ++ entry_log op w)%list /\
    now w <= now (snd (exec op w)).
Proof.
  destruct op as [|params| |ticks]; cbn [exec].
  - destruct (init_step w) as (evs & Hev & Hpast & Hnow & Hlogs).
    exists evs. split; [assumption|].
    split; [intros H; destruct (Hpast H) as [-> ?]; auto|].
    split; [intros H; apply Hpast; congruence|]. auto.
  - destruct (prepare_step params w)
      as (evs & Hev & Hfs & Hnone & Hdirs & Hnow & Hlogs & _).
    exists evs. repeat split; auto. intros H. apply Hnone. congruence.
  - exists []. rewrite decrementActiveSandboxCount_unfold. cbn.
    destruct (_activeSandboxCount (this w) =? 0); cbn;
      rewrite app_nil_r; repeat split; auto; lia.
  - exists []. cbn. rewrite !app_nil_r. repeat split; auto; lia.
Qed.

(** ** Whole histories *)

Lemma run_key_rank (ops : list Op) (w : World) :
  key (this (run ops w)) = key (this w) /\
  (rank (_state (this w)) <= rank (_state (this (run ops w))))%nat.
Proof.
  revert w; induction ops as [|op ops IH]; intros w; cbn [run]; [auto|].
  destruct (IH (snd (exec op w))) as [Hk Hr].
  destruct (exec_key_rank op w) as [Hk' Hr'].
  split; [congruence|]. etransitivity; eassumption.
Qed.

Lemma rank_past_created (s s' : CachedSandboxState) :
  (rank s <= rank s')%nat -> s <> CREATED -> s' <> CREATED.
Proof. destruct s, s'; cbn; intros; try congruence; lia. Qed.

Lemma rank_ready (s s' : CachedSandboxState) :
  (rank s <= rank s')%nat -> s = READY -> s' = READY.
Proof. destruct s, s'; cbn; intros; try congruence; lia. Qed.

Lemma run_events (ops : list Op) (w : World) :
  exists evs,
    events (run ops w) = (events w ++ evs)%list /\
    (_state (this w) <> CREATED ->
     Forall (fun ev => is_fs ev = false) evs /\ dirs (run ops w) = dirs w) /\
    (_state (this w) = READY -> evs = []) /\
    now w <= now (run ops w).
Proof.
  revert w; induction ops as [|op ops IH]; intros w; cbn [run].
  - exists []. rewrite app_nil_r. repeat split; auto. lia.
  - destruct (exec_events op w) as (evs1 & E1 & Hpast1 & Hready1 & _ & Hnow1).
    destruct (IH (snd (exec op w))) as (evs2 & E2 & Hpast2 & Hready2 & Hnow2).
    destruct (exec_key_rank op w) as [_ Hrank].
    exists (evs1 ++ evs2)%list.
    split; [rewrite E2, E1; now rewrite app_assoc|].
    split; [|split; [|lia]].
    + intros H. destruct (Hpast1 H) as [F1 D1].
      destruct (Hpast2 (rank_past_created _ _ Hrank H)) as [F2 D2].
      split; [apply Forall_app; auto | congruence].
    + intros H. rewrite (Hready1 H), (Hready2 (rank_ready _ _ Hrank H)).
      reflexivity.
Qed.

(** ** Identity and state *)

(** X1. The key given to the constructor, and with it the path
    [<cache root>/sandbox/<key>], stay the same through every history of
    calls on the slot, whether the calls succeed or fail. *)
Theorem path_is_stable
    (params : CtorParams) (clock : Z) (disk : list string)
    (history : list Event) (log : list LogRecord) (ops : list Op) :
  key (this (run ops (new_CachedSandbox params clock disk history log))) =
    ctor_key params /\
  path (run ops (new_CachedSandbox params clock disk history log)) =
    CACHE_PATH ++ "/sandbox/" ++ ctor_key params.
Proof.
  destruct (run_key_rank ops (new_CachedSandbox params clock disk history log))
    as [Hk _].
  unfold path. rewrite Hk. split; reflexivity.
Qed.

(** X2. The state only moves forward. One call leaves it as it is, or is
    an [init] that returns normally and takes [CREATED] to [INITIALIZED],
    or is a [prepare] that returns normally and takes [INITIALIZED] to
    [READY]; so over a history it never goes back, and no call skips from
    [CREATED] to [READY]. *)
Theorem state_only_advances (op : Op) (ops : list Op) (w : World) :
  (_state (this (snd (exec op w))) = _state (this w) \/
   (op = Initialize /\ fst (exec op w) = Ok tt /\
    _state (this w) = CREATED /\
    _state (this (snd (exec op w))) = INITIALIZED) \/
   (exists params,
      op = Prepare params /\ fst (exec op w) = Ok tt /\
      _state (this w) = INITIALIZED /\
      _state (this (snd (exec op w))) = READY)) /\
  (rank (_state (this w)) <= rank (_state (this (run ops w))))%nat.
Proof.
  split; [|apply run_key_rank].
  destruct op as [|params| |ticks]; cbn [exec].
  - destruct (init_this w) as [->|(Hst & Hok & ->)]; auto.
    right; left. auto.
  - destruct (prepare_step params w) as (_ & _ & _ & _ & _ & _ & _ & Hstate).
    destruct Hstate as [H|[Hst Hready]]; auto.
    right; right. exists params. repeat split; auto.
    now apply prepare_initialized_ready_iff.
  - left. rewrite decrementActiveSandboxCount_unfold. cbn.
    destruct (_activeSandboxCount (this w) =? 0); reflexivity.
  - left. reflexivity.
Qed.

(** X3. A slot that is [READY] is only ever reused: through any further
    history it stays [READY], no collaborator is invoked (no installer, no
    build, no file-system call), the directories stay as they are, and a
    [prepare] made at any point returns normally. *)
Theorem ready_slot_is_only_reused
    (ops : list Op) (params : PrepareParams) (w : World) :
  _state (this w) = READY ->
  _state (this (run ops w)) = READY /\
  events (run ops w) = events w /\
  dirs (run ops w) = dirs w /\
  fst (prepare params (run ops w)) = Ok tt.
Proof.
  intros Hst.
  destruct (run_key_rank ops w) as [_ Hrank].
  pose proof (rank_ready _ _ Hrank Hst) as Hst'.
  destruct (run_events ops w) as (evs & Hev & Hpast & Hready & _).
  rewrite (Hready Hst), app_nil_r in Hev.
  destruct Hpast as [_ Hdirs]; [congruence|].
  repeat split; auto.
  rewrite prepare_unfold, Hst'. reflexivity.
Qed.

(** X4. [rm] and [mkdir] are invoked only by an [init] that finds the slot
    [CREATED]. Once the slot is past [CREATED] no history of calls invokes
    either again, so the class never deletes or recreates the directory of
    a slot that borrowers may be using; and the slot never returns to
    [CREATED]. *)
Theorem directory_untouched_after_init (ops : list Op) (w : World) :
  _state (this w) <> CREATED ->
  Forall (fun ev => is_fs ev = false) (new_events w (run ops w)) /\
  dirs (run ops w) = dirs w /\
  _state (this (run ops w)) <> CREATED.
Proof.
  intros Hst.
  destruct (run_key_rank ops w) as [_ Hrank].
  destruct (run_events ops w) as (evs & Hev & Hpast & _).
  destruct (Hpast Hst) as [Hfs Hdirs].
  rewrite (new_events_app _ _ _ Hev).
  repeat split; auto. eapply rank_past_created; eassumption.
Qed.

(** ** Initialisation *)

(** X5. On a [CREATED] slot [init] first removes the path (recursively,
    tolerating absence), waits for that, and then creates it (recursively);
    it changes no field but the state. If either step is rejected the call
    throws that rejection, nothing is invoked after it and the slot is
    still [CREATED], so that [init] can be called again; if both succeed
    the slot is [INITIALIZED] and its directory exists. *)
Theorem init_on_created_removes_then_creates (w : World) :
  _state (this w) = CREATED ->
  let r := fst (init w) in
  let w' := snd (init w) in
  let evs := new_events w w' in
  this w' = with_state (_state (this w')) (this w) /\
  map ev_call evs =
    firstn (List.length evs) [fs_rm (path w) true true; fs_mkdir (path w) true] /\
  scheduled (now w) evs /\
  match r with
  | Ok _ =>
      _state (this w') = INITIALIZED /\
      List.length evs = 2%nat /\
      Forall succeeded evs /\
      In (path w) (dirs w')
  | Err e =>
      _state (this w') = CREATED /\
      exists pre ev,
        evs = (pre ++ [ev])%list /\
        Forall succeeded pre /\
        rejection (ev_outcome ev) = Some e
  end.
Proof.
  intros Hst. cbv zeta. rewrite init_unfold. cbv zeta. rewrite Hst.
  assert (Hthis : this w = with_state CREATED (this w)).
  { destruct w as [[k st n t] clock disk history log].
    cbn in Hst; subst st; reflexivity. }
  set (w0 := add_log _ w).
  set (c1 := fs_rm (path w) true true).
  destruct (after_fields c1 w0) as (T1 & _ & _ & _ & E1 & N1 & _ & _).
  destruct (rejection (ev_outcome (event_of c1 w0))) as [e1|] eqn:R1.
  { cbn [fst snd]. rewrite (new_events_app w _ [event_of c1 w0]); [|exact E1].
    rewrite T1. cbn [this add_log w0]. rewrite Hst.
    split; [exact Hthis|]. split; [reflexivity|].
    split; [cbn; auto|]. split; [reflexivity|].
    exists [], (event_of c1 w0). repeat split; auto. }
  set (w1 := set_dirs _ (after c1 w0)).
  set (c2 := fs_mkdir (path w) true).
  destruct (after_fields c2 w1) as (T2 & _ & _ & _ & E2 & _ & _ & _).
  assert (E12 : events (after c2 w1) =
                (events w ++ [event_of c1 w0; event_of c2 w1])%list).
  { rewrite E2. unfold w1. cbn [events set_dirs]. rewrite E1, <- app_assoc.
    reflexivity. }
  assert (T12 : this (after c2 w1) = this w).
  { rewrite T2. unfold w1. cbn [this set_dirs]. rewrite T1. reflexivity. }
  assert (Hsched : scheduled (now w) [event_of c1 w0; event_of c2 w1]).
  { cbn [scheduled]. repeat split; auto. }
  destruct (rejection (ev_outcome (event_of c2 w1))) as [e2|] eqn:R2;
    cbn [fst snd].
  - rewrite (new_events_app w _ _ E12), T12, Hst.
    split; [exact Hthis|]. split; [reflexivity|].
    split; [exact Hsched|]. split; [reflexivity|].
    exists [event_of c1 w0], (event_of c2 w1).
    repeat split; auto.
  - rewrite (new_events_app w _ [event_of c1 w0; event_of c2 w1]);
      [|cbn [events set_this set_dirs]; exact E12].
    cbn [this set_this set_dirs dirs]. rewrite T12.
    split; [reflexivity|]. split; [reflexivity|].
    split; [exact Hsched|]. split; [reflexivity|]. split; [reflexivity|].
    split; [repeat constructor; assumption|].
    apply mkdir_makes_directory.
Qed.

(** ** Borrowers *)

Lemma exec_count (op : Op) (w : World) :
  _activeSandboxCount (this (snd (exec op w))) =
  match op with
  | Prepare _ =>
      match _state (this w) with
      | CREATED => _activeSandboxCount (this w)
      | _ => _activeSandboxCount (this w) + 1
      end
  | Release =>
      if _activeSandboxCount (this w) =? 0 then 0
      else _activeSandboxCount (this w) - 1
  | _ => _activeSandboxCount (this w)
  end.
Proof.
  destruct op as [|params| |ticks]; cbn [exec].
  - destruct (init_this w) as [->|(_ & _ & ->)]; reflexivity.
  - rewrite prepare_this. destruct (_state (this w)); reflexivity.
  - rewrite decrementActiveSandboxCount_unfold. cbn.
    destruct (Z.eqb_spec (_activeSandboxCount (this w)) 0) as [E|E]; cbn;
      [exact E | reflexivity].
  - reflexivity.
Qed.

(** X6. Every [prepare] that finds the slot past [CREATED] adds one
    borrower, whether it takes the reuse path, builds, or fails in the
    build: after [n] such calls in a row the count has grown by [n]. *)
Theorem prepare_counts_every_call (ops : list Op) (w : World) :
  _state (this w) <> CREATED ->
  forallb is_prepare ops = true ->
  _activeSandboxCount (this (run ops w)) =
    _activeSandboxCount (this w) + Z.of_nat (List.length ops).
Proof.
  revert w; induction ops as [|op ops IH]; intros w Hst Hops; cbn [run].
  - cbn. lia.
  - cbn [forallb] in Hops. apply andb_true_iff in Hops as [Hop Hops].
    destruct (exec_key_rank op w) as [_ Hrank].
    rewrite (IH _ (rank_past_created _ _ Hrank Hst) Hops), exec_count.
    destruct op; try discriminate.
    cbn [List.length]. destruct (_state (this w)); try congruence; lia.
Qed.

Lemma run_count_bound (ops : list Op) (w : World) :
  _activeSandboxCount (this (run ops w)) <=
    _activeSandboxCount (this w) + Z.of_nat (List.length (filter is_prepare ops)).
Proof.
  revert w; induction ops as [|op ops IH]; intros w; cbn [run filter].
  - cbn. lia.
  - specialize (IH (snd (exec op w))). rewrite exec_count in IH.
    destruct op; cbn [is_prepare List.length] in *;
      try destruct (_state (this w));
      try destruct (Z.eqb_spec (_activeSandboxCount (this w)) 0); lia.
Qed.

(** X7. A slot never counts more borrowers than [prepare] calls were made
    on it; in particular a slot on which [prepare] was never called is not
    in use. *)
Theorem borrowers_bounded_by_prepare_calls
    (params : CtorParams) (clock : Z) (disk : list string)
    (history : list Event) (log : list LogRecord) (ops : list Op) :
  _activeSandboxCount
    (this (run ops (new_CachedSandbox params clock disk history log))) <=
    Z.of_nat (List.length (filter is_prepare ops)) /\
  (if existsb is_prepare ops then True
   else isInUse (run ops (new_CachedSandbox params clock disk history log)) = false).
Proof.
  pose proof (run_count_bound ops
                (new_CachedSandbox params clock disk history log)) as H.
  cbn [this new_CachedSandbox _activeSandboxCount] in H.
  split; [lia|].
  destruct (existsb is_prepare ops) eqn:E; [exact I|].
  assert (Hnone : filter is_prepare ops = []).
  { apply filter_none. apply Forall_forall. intros op Hin.
    destruct (is_prepare op) eqn:Eop; [|reflexivity].
    assert (existsb is_prepare ops = true)
      by (apply existsb_exists; eauto).
    congruence. }
  rewrite Hnone in H. cbn in H.
  unfold isInUse. rewrite Z.gtb_ltb. apply Z.ltb_ge. lia.
Qed.

(** X8. A [prepare] on a slot past [CREATED] followed by a release leaves
    the borrower count where it was, also when the [prepare] failed in the
    build; the release does not undo the last-used time or the state. *)
Theorem prepare_then_release_restores_count (params : PrepareParams) (w : World) :
  _state (this w) <> CREATED ->
  0 <= _activeSandboxCount (this w) ->
  this (snd (decrementActiveSandboxCount (snd (prepare params w)))) =
    with_state (_state (this (snd (prepare params w))))
      (with_lastUsedAt (now w) (this w)).
Proof.
  intros Hst Hcount.
  pose proof (prepare_this params w) as Hp.
  rewrite decrementActiveSandboxCount_unfold. cbv zeta. cbn [snd].
  remember (snd (prepare params w)) as w1 eqn:Ew1. clear Ew1.
  destruct w1 as [[k1 s1 n1 t1] clock1 disk1 history1 log1].
  destruct (this w) as [k st n t].
  cbn in Hst, Hcount, Hp |- *.
  destruct st; [congruence| |]; injection Hp as -> -> ->;
    (destruct (Z.eqb_spec (n + 1) 0); [lia|]);
    cbn; unfold with_state, with_lastUsedAt; cbn;
    replace (n + 1 - 1) with n by lia; reflexivity.
Qed.

(** X9. Releasing [n] times takes [n] borrowers off and stops at zero:
    the count is the larger of zero and what was there less [n], the slot
    is in use exactly while fewer releases than borrowers were made, and
    neither the state nor the last-used time moves. *)
Theorem releases_stop_at_zero (n : nat) (w : World) :
  0 <= _activeSandboxCount (this w) ->
  _activeSandboxCount (this (run (repeat Release n) w)) =
    Z.max 0 (_activeSandboxCount (this w) - Z.of_nat n) /\
  isInUse (run (repeat Release n) w) =
    (Z.of_nat n <? _activeSandboxCount (this w)) /\
  _state (this (run (repeat Release n) w)) = _state (this w) /\
  lastUsedAt (run (repeat Release n) w) = lastUsedAt w.
Proof.
  revert w; induction n as [|n IH]; intros w Hcount.
  - cbn [repeat run]. unfold isInUse. rewrite Z.gtb_ltb.
    repeat split; auto. lia.
  - cbn [repeat run exec].
    pose proof (exec_count Release w) as Hc. cbn [exec] in Hc.
    pose proof (exec_lastUsedAt Release w) as Hl. cbn [exec] in Hl.
    pose proof (exec_key_rank Release w) as [_ Hr]. cbn [exec] in Hr.
    assert (Hs : _state (this (snd (decrementActiveSandboxCount w))) =
                 _state (this w)).
    { rewrite decrementActiveSandboxCount_unfold. cbn.
      destruct (_activeSandboxCount (this w) =? 0); reflexivity. }
    destruct (Z.eqb_spec (_activeSandboxCount (this w)) 0) as [E|E].
    + destruct (IH (snd (decrementActiveSandboxCount w))) as (H1 & H2 & H3 & H4);
        [lia|].
      rewrite H1, H2, H3, H4, Hc, Hs, Hl.
      repeat split; auto; [lia|].
      destruct (Z.ltb_spec (Z.of_nat n) 0), (Z.ltb_spec (Z.of_nat (S n))
                 (_activeSandboxCount (this w))); auto; lia.
    + destruct (IH (snd (decrementActiveSandboxCount w))) as (H1 & H2 & H3 & H4);
        [lia|].
      rewrite H1, H2, H3, H4, Hc, Hs, Hl.
      repeat split; auto; [lia|].
      destruct (Z.ltb_spec (Z.of_nat n) (_activeSandboxCount (this w) - 1)),
        (Z.ltb_spec (Z.of_nat (S n)) (_activeSandboxCount (this w))); auto; lia.
Qed.

(** X10. After a [prepare] that found the slot past [CREATED] the slot is
    in use, whatever came before in its history and also when that
    [prepare] failed in the build: the caller holds a borrow until it
    releases it. *)
Theorem accepted_prepare_marks_slot_in_use
    (ctor : CtorParams) (clock : Z) (disk : list string)
    (history : list Event) (log : list LogRecord) (ops : list Op)
    (params : PrepareParams) :
  _state (this (run ops (new_CachedSandbox ctor clock disk history log)))
    <> CREATED ->
  isInUse (snd (prepare params
                  (run ops (new_CachedSandbox ctor clock disk history log))))
    = true.
Proof.
  intros Hst.
  set (w := run ops (new_CachedSandbox ctor clock disk history log)) in *.
  assert (Hcount : 0 <= _activeSandboxCount (this w)).
  { apply run_count_nonneg. cbn. lia. }
  pose proof (exec_count (Prepare params) w) as Hc. cbn [exec] in Hc.
  unfold isInUse. rewrite Hc, Z.gtb_ltb. apply Z.ltb_lt.
  destruct (_state (this w)); [congruence| |]; lia.
Qed.

(** ** What a failed [prepare] reports *)

(** X11. [prepare] never fails on a [READY] slot, and the context it
    attaches to an error describes the slot as the [catch] block finds it:
    the call's arguments with [codeSteps] defaulted, the key and path, the
    state (still [CREATED] or [INITIALIZED]), and, once the call was let
    past the initialisation check, the borrower count with this call
    already counted and the last-used time already set to this call. *)
Theorem prepare_error_context_describes_slot
    (params : PrepareParams) (w : World) (e : Error) :
  fst (prepare params w) = Err e ->
  _state (this w) <> READY /\
  exists e0,
    e = enrichErrorContext e0 "[CachedSandbox#prepare]"
          (SandboxContext
             {| args := (pieces params, codeSteps_of params);
                ctx_state := _state (this w);
                activeSandboxes :=
                  match _state (this w) with
                  | CREATED => _activeSandboxCount (this w)
                  | _ => _activeSandboxCount (this w) + 1
                  end;
                ctx_key := key (this w);
                ctx_lastUsedAt :=
                  match _state (this w) with
                  | CREATED => lastUsedAt w
                  | _ => now w
                  end;
                ctx_isInUse :=
                  match _state (this w) with
                  | CREATED => _activeSandboxCount (this w)
                  | _ => _activeSandboxCount (this w) + 1
                  end >? 0;
                ctx_path := path w |}).
Proof.
  intros Herr.
  destruct (_state (this w)) eqn:Hst.
  - split; [discriminate|].
    rewrite prepare_unfold, Hst in Herr. cbn [fst] in Herr.
    injection Herr as <-. eexists. unfold enriched, contextValue_of.
    unfold lastUsedAt, isInUse, path. cbn [this add_log]. rewrite Hst.
    reflexivity.
  - split; [discriminate|].
    destruct (prepare_initialized_new params w Hst) as (_ & Hout & Hthis & _).
    assert (Hfail : _state (this (snd (prepare params w))) = INITIALIZED /\
                    exists e0, e = enriched params (snd (prepare params w)) e0).
    { destruct Hout; rewrite Hres in Herr;
        [injection Herr as <-; eauto | injection Herr as <-; eauto | discriminate]. }
    destruct Hfail as (Hstate' & e0 & ->).
    rewrite Hstate' in Hthis.
    exists e0. unfold enriched, contextValue_of, lastUsedAt, isInUse, path.
    rewrite Hthis.
    cbn [this key _state _activeSandboxCount _lastUsedAt borrowed set_this
         add_log with_state with_lastUsedAt with_activeSandboxCount].
    reflexivity.
  - rewrite prepare_unfold, Hst in Herr. discriminate.
Qed.

(** ** The builds *)

(** X12. [buildCodeArchives] starts exactly one build for each artifact, in
    the order of the array, with the artifact's name as source-code id, its
    source code, and the slot's path as build path; all are started at the
    same time, also when one of them will be rejected. It touches no field
    and no directory entry. It returns normally exactly when no build is
    rejected, and then every build has finished; otherwise it throws the
    first rejection at the time of that rejection. With no artifact it
    invokes nothing, takes no time and returns normally. *)
Theorem buildCodeArchives_starts_one_build_per_artifact
    (codeArchives : list CodeArtifact) (w : World) :
  let r := fst (buildCodeArchives codeArchives w) in
  let w' := snd (buildCodeArchives codeArchives w) in
  let jobs := new_events w w' in
  map ev_call jobs =
    map (fun archive =>
           codeBuilder_processCodeStep (name archive) (sourceCode archive) (path w))
      codeArchives /\
  Forall (fun j => ev_started j = now w) jobs /\
  this w' = this w /\ dirs w' = dirs w /\ logs w' = logs w /\
  (r = Ok tt <-> Forall succeeded jobs) /\
  match r with
  | Ok _ => Forall (fun j => ev_finish j <= now w') jobs
  | Err e =>
      exists j,
        first_rejection jobs = Some (j, e) /\ now w' = ev_finish j
  end /\
  match codeArchives with
  | [] => r = Ok tt /\ events w' = events w /\ now w' = now w
  | _ :: _ => jobs <> []
  end.
Proof.
  cbv zeta. rewrite buildCodeArchives_run.
  set (jobs := launched (events w) (now w) (build_calls (path w) codeArchives)).
  assert (Hev : forall r0 t,
            new_events w (snd (r0 : Result unit, set_now t (add_events jobs w)))
            = jobs).
  { intros r0 t. apply new_events_app. reflexivity. }
  pose proof (launched_calls (events w) (now w)
                (build_calls (path w) codeArchives)) as Hcalls.
  pose proof (launched_started (events w) (now w)
                (build_calls (path w) codeArchives)) as Hstart.
  fold jobs in Hcalls, Hstart.
  unfold Promise_all. cbn [now add_events].
  destruct (first_rejection jobs) as [[j e]|] eqn:F; rewrite Hev; cbn [fst snd].
  - destruct (first_rejection_Some _ _ _ F) as (Hin & Hrej & _).
    assert (Hj : ev_started j = now w).
    { rewrite Forall_forall in Hstart. now apply Hstart. }
    split; [exact Hcalls|]. split; [exact Hstart|].
    split; [reflexivity|]. split; [reflexivity|]. split; [reflexivity|].
    split; [|split].
    + split; [discriminate|]. intros Hall.
      apply first_rejection_None in Hall. congruence.
    + exists j. split; [exact F|]. cbn [now set_now].
      unfold ev_finish in *. lia.
    + destruct codeArchives; [discriminate F|discriminate].
  - destruct (all_settled_at_ge (now w) jobs) as [Hge Hall].
    split; [exact Hcalls|]. split; [exact Hstart|].
    split; [reflexivity|]. split; [reflexivity|]. split; [reflexivity|].
    split; [|split].
    + split; [intros _; now apply first_rejection_None | reflexivity].
    + exact Hall.
    + destruct codeArchives; [|discriminate].
      repeat split. cbn. now rewrite app_nil_r.
Qed.

(** X13. When a [prepare] on an [INITIALIZED] slot has returned normally,
    the next [prepare] (whatever its arguments) returns normally at once:
    it invokes nothing and takes no time. The two calls together have run
    the build sequence once, for the first call's arguments, and have added
    two borrowers. *)
Theorem second_prepare_reuses_the_build
    (first second : PrepareParams) (w : World) :
  _state (this w) = INITIALIZED ->
  fst (prepare first w) = Ok tt ->
  let w1 := snd (prepare first w) in
  let w2 := snd (prepare second w1) in
  fst (prepare second w1) = Ok tt /\
  events w2 = events w1 /\ now w2 = now w1 /\ dirs w2 = dirs w1 /\
  _state (this w2) = READY /\
  _activeSandboxCount (this w2) = _activeSandboxCount (this w) + 2 /\
  lastUsedAt w2 = now w1 /\
  map ev_call (new_events w w2) =
    build_sequence (path w) (pieces first) (codeSteps_of first).
Proof.
  intros Hst Hok. cbv zeta.
  destruct (prepare_initialized_ready_iff first w Hst) as (_ & Hiff & _ & Hready).
  pose proof (proj1 Hready Hok) as Hst1.
  destruct (proj1 Hiff Hst1) as [Hseq _].
  pose proof (exec_count (Prepare first) w) as Hc1. cbn [exec] in Hc1.
  rewrite Hst in Hc1.
  set (w1 := snd (prepare first w)) in *.
  pose proof (exec_count (Prepare second) w1) as Hc2. cbn [exec] in Hc2.
  rewrite Hst1 in Hc2.
  pose proof (exec_lastUsedAt (Prepare second) w1) as Hl. cbn [exec] in Hl.
  rewrite Hst1 in Hl.
  rewrite Hc2, Hc1, Hl.
  rewrite (prepare_unfold second w1), Hst1. cbn [fst snd].
  repeat split; auto; lia.
Qed.

(** ** Logging *)

(** X14. Each of [init], [prepare] and [decrementActiveSandboxCount] writes
    exactly one debug record, on entry: it carries the key and the state and
    borrower count as they were before the call, and it is written whether
    the call then returns or throws. *)
Theorem every_call_logs_its_entry (op : Op) (w : World) :
  logs (snd (exec op w)) =
  (logs w ++
   match op with
   | Initialize =>
       [LogCall "CachedSandbox#init" (key (this w)) (_state (this w))
          (_activeSandboxCount (this w))]
   | Prepare _ =>
       [LogCall "CachedSandbox#prepare" (key (this w)) (_state (this w))
          (_activeSandboxCount (this w))]
   | Release =>
       [LogCall "CachedSandbox#decrementActiveSandboxCount" (key (this w))
          (_state (this w)) (_activeSandboxCount (this w))]
   | Idle _ => []
   end)%list.
Proof.
  destruct (exec_events op w) as (_ & _ & _ & _ & Hlogs & _).
  rewrite Hlogs. destruct op; reflexivity.
Qed.

End Lifecycle.

(** * Worked histories *)

Section Histories.
Import Samples.

(** A rejected build ends [prepare] at tick 106 while the other build,
    started with it at 105, runs until 110: the call has reported the
    failure and released the lock four ticks before that build is done. *)
Lemma build_failure_leaves_build_running :
  _state (this (initialized one_bad_build)) = INITIALIZED /\
  (exists e,
     fst (@prepare texts one_bad_build (request (Some two_steps))
            (initialized one_bad_build)) = Err e) /\
  now (snd (@prepare texts one_bad_build (request (Some two_steps))
              (initialized one_bad_build))) = 106 /\
  map (fun ev => (ev_started ev, ev_finish ev, rejection (ev_outcome ev)))
    (filter is_build
       (@new_events texts (initialized one_bad_build)
          (snd (@prepare texts one_bad_build (request (Some two_steps))
                  (initialized one_bad_build))))) =
  [ (105, 106, Some (new_Error "build failed")); (105, 110, None) ].
Proof.
  split; [reflexivity|]. split; [eexists; vm_compute; reflexivity|].
  split; vm_compute; reflexivity.
Qed.

(** The hypotheses of the general statement hold in that same history. *)
Lemma build_failure_ends_prepare_witness :
  _state (this (initialized one_bad_build)) = INITIALIZED /\
  Exists failed
    (filter is_build
       (@new_events texts (initialized one_bad_build)
          (snd (@prepare texts one_bad_build (request (Some two_steps))
                  (initialized one_bad_build))))) /\
  _state (this (snd (@prepare texts one_bad_build (request (Some two_steps))
                       (initialized one_bad_build)))) = INITIALIZED.
Proof.
  assert (H1 : _state (this (initialized one_bad_build)) = INITIALIZED)
    by reflexivity.
  assert (H2 : Exists failed
    (filter is_build
       (@new_events texts (initialized one_bad_build)
          (snd (@prepare texts one_bad_build (request (Some two_steps))
                  (initialized one_bad_build)))))).
  { vm_compute. apply Exists_cons_hd. discriminate. }
  exact (conj H1 (conj H2
    (proj1 (proj2 (proj2
       (@build_failure_ends_prepare_at_first_rejection texts one_bad_build
          (request (Some two_steps)) (initialized one_bad_build) H1 H2)))))).
Defined.

(** The slot as the failed [prepare] above leaves it. *)
Definition after_failed_build : World :=
  snd (@prepare texts one_bad_build (request (Some two_steps))
         (initialized one_bad_build)).

(** C1. The code does not do what the claim says: it does not await every
    build before it reports the failure. Of two builds started at tick 105
    one is rejected at 106; [prepare] throws then, and the lock is free
    while the other build still writes into the slot's path until 110. A
    [prepare] made next gets the lock, runs the installers beside that
    build and has the slot [READY] at tick 109, before the build of the
    first call is done. *)
Lemma failed_prepare_frees_slot_with_build_running :
  _state (this (initialized one_bad_build)) = INITIALIZED /\
  (exists e,
     fst (@prepare texts one_bad_build (request (Some two_steps))
            (initialized one_bad_build)) = Err e) /\
  now after_failed_build = 106 /\
  map (fun ev => (ev_started ev, ev_finish ev, rejection (ev_outcome ev)))
    (filter is_build
       (@new_events texts (initialized one_bad_build) after_failed_build)) =
    [ (105, 106, Some (new_Error "build failed")); (105, 110, None) ] /\
  fst (@prepare texts one_bad_build (request None) after_failed_build) = Ok tt /\
  _state (this (snd (@prepare texts one_bad_build (request None)
                       after_failed_build))) = READY /\
  now (snd (@prepare texts one_bad_build (request None) after_failed_build)) = 109.
Proof.
  split; [reflexivity|]. split; [eexists; vm_compute; reflexivity|].
  repeat split; vm_compute; reflexivity.
Qed.

(** C2 as stated does not hold. A [prepare] whose first installer is
    rejected throws, and has moved the last-used time from 100 to 102 all
    the same. *)
Lemma failed_prepare_moves_lastUsedAt :
  lastUsedAt (initialized flaky_install) = 100 /\
  (exists e,
     fst (@exec texts flaky_install (Prepare (request None))
            (initialized flaky_install)) = Err e) /\
  lastUsedAt (snd (@exec texts flaky_install (Prepare (request None))
                     (initialized flaky_install))) = 102.
Proof.
  split; [reflexivity|]. split; [eexists; vm_compute; reflexivity|].
  vm_compute; reflexivity.
Qed.

(** C3 at work: the dependency context cannot be initialised at first, the
    slot stays [INITIALIZED], and the next [prepare] builds it. *)
Lemma failed_build_is_retried_witness :
  _state (this (initialized flaky_install)) = INITIALIZED /\
  Exists failed
    (@new_events texts (initialized flaky_install)
       (snd (@prepare texts flaky_install (request None)
               (initialized flaky_install)))) /\
  _state (this (snd (@prepare texts flaky_install (request None)
                       (initialized flaky_install)))) = INITIALIZED /\
  _state (this (snd (@prepare texts flaky_install (request (Some two_steps))
                       (snd (@prepare texts flaky_install (request None)
                               (initialized flaky_install)))))) = READY.
Proof.
  assert (H1 : _state (this (initialized flaky_install)) = INITIALIZED)
    by reflexivity.
  assert (H2 : Exists failed
    (@new_events texts (initialized flaky_install)
       (snd (@prepare texts flaky_install (request None)
               (initialized flaky_install))))).
  { vm_compute. apply Exists_cons_hd. discriminate. }
  pose proof (@failed_build_is_retried_from_initialized texts flaky_install
                (request None) (request (Some two_steps))
                (initialized flaky_install) H1 H2) as H.
  cbv zeta in H.
  destruct H as (_ & Hstate & _ & _ & _ & _ & _ & _ & Hretry).
  refine (conj H1 (conj H2 (conj Hstate (proj1 (proj2 (Hretry _)))))).
  vm_compute. repeat constructor.
Defined.

Lemma attachContext_keeps_kind : @keeps_kind texts calm.
Proof. intros error key value. split; reflexivity. Defined.

(** C4 at work on a slot fresh from its constructor. *)
Lemma prepare_before_init_witness :
  _state (this (@fresh calm)) = CREATED /\
  (exists e,
     fst (@prepare texts calm (request None) (@fresh calm)) = Err e /\
     err_name e = "Error" /\
     err_message e = "[CachedSandbox#prepare] not initialized, Key=abc state=CREATED") /\
  this (snd (@prepare texts calm (request None) (@fresh calm))) = this (@fresh calm) /\
  events (snd (@prepare texts calm (request None) (@fresh calm))) = [].
Proof.
  pose proof (@prepare_before_init_fails texts calm (request None) (@fresh calm)
                eq_refl) as H.
  cbv zeta in H.
  destruct H as (Hres & Hkind & Hthis & Hevents & _).
  destruct (Hkind attachContext_keeps_kind) as [Hname Hmsg].
  split; [reflexivity|]. split; [|split; assumption].
  eexists. split; [exact Hres|]. split; [exact Hname | exact Hmsg].
Defined.

(** C5 as stated does not hold. [init] throws the rejection of [rm] as it
    is: the error that reaches the caller carries no context. *)
Lemma init_error_is_not_enriched :
  fst (@init texts locked_disk (@fresh locked_disk)) =
    Err (new_Error "EACCES: permission denied") /\
  map (fun ev => rejection (ev_outcome ev))
    (@new_events texts (@fresh locked_disk)
       (snd (@init texts locked_disk (@fresh locked_disk)))) =
    [Some (new_Error "EACCES: permission denied")] /\
  err_context (@new_Error texts "EACCES: permission denied") = [].
Proof. repeat split; vm_compute; reflexivity. Qed.

(** C5's theorem at work on a disk that cannot be written. *)
Lemma collaborator_errors_are_rethrown_witness :
  @keeps_kind texts locked_disk /\
  match fst (@init texts locked_disk (@fresh locked_disk)) with
  | Ok _ =>
      Forall succeeded
        (@new_events texts (@fresh locked_disk)
           (snd (@init texts locked_disk (@fresh locked_disk))))
  | Err e =>
      exists ev,
        In ev (@new_events texts (@fresh locked_disk)
                 (snd (@init texts locked_disk (@fresh locked_disk)))) /\
        rejection (ev_outcome ev) = Some e
  end.
Proof.
  assert (Hkind : @keeps_kind texts locked_disk)
    by (intros error key value; split; reflexivity).
  exact (conj Hkind
    (proj1 (@collaborator_errors_are_rethrown texts locked_disk
              (request None) (@fresh locked_disk) Hkind))).
Defined.

(** C8 at work: a fresh slot initialised twice, and a ready slot
    initialised again. *)
Lemma init_is_idempotent_witness :
  fst (@init texts calm (@fresh calm)) = Ok tt /\
  _state (this (ready calm)) <> CREATED /\
  this (snd (@init texts calm (snd (@init texts calm (@fresh calm))))) =
    this (snd (@init texts calm (@fresh calm))) /\
  _state (this (snd (@init texts calm (ready calm)))) = READY.
Proof.
  assert (H1 : fst (@init texts calm (@fresh calm)) = Ok tt) by reflexivity.
  assert (H2 : _state (this (ready calm)) <> CREATED)
    by (vm_compute; discriminate).
  pose proof (@init_is_idempotent texts calm (@fresh calm) (ready calm) H1 H2) as H.
  cbv zeta in H.
  destruct H as ((_ & Hthis & _) & (_ & Hv & _)).
  refine (conj H1 (conj H2 (conj Hthis _))).
  rewrite Hv. reflexivity.
Defined.

(** C10 at work on a history without a Prepare call. *)
Lemma lastUsedAt_starts_at_construction_witness :
  forallb (fun op => negb (@is_prepare texts op))
    [Initialize; Release; Idle 50; Initialize] = true /\
  lastUsedAt (@run texts calm [Initialize; Release; Idle 50; Initialize]
                (@fresh calm)) = 100.
Proof.
  exact (conj eq_refl
    (proj2 (@lastUsedAt_starts_at_construction texts calm
              {| ctor_key := "abc" |} 100 [] [] []
              [Initialize; Release; Idle 50; Initialize] eq_refl))).
Defined.

End Histories.

(** * Worked histories of whole slots *)

Section LifecycleHistories.
Import Samples.

(** X3 at work: a ready slot is initialised again, borrowed and released. *)
Lemma ready_slot_is_only_reused_witness :
  _state (this (ready calm)) = READY /\
  events (@run texts calm
            [Initialize; Prepare (request (Some two_steps)); Release]
            (ready calm)) = events (ready calm).
Proof.
  assert (H : _state (this (ready calm)) = READY) by (vm_compute; reflexivity).
  exact (conj H
    (proj1 (proj2
       (@ready_slot_is_only_reused texts calm
          [Initialize; Prepare (request (Some two_steps)); Release]
          (request None) (ready calm) H)))).
Defined.

(** X4 at work on a slot whose build fails. *)
Lemma directory_untouched_after_init_witness :
  _state (this (initialized one_bad_build)) <> CREATED /\
  dirs (@run texts one_bad_build
          [Prepare (request (Some two_steps)); Initialize; Release]
          (initialized one_bad_build)) = dirs (initialized one_bad_build).
Proof.
  assert (H : _state (this (initialized one_bad_build)) <> CREATED)
    by (vm_compute; discriminate).
  exact (conj H
    (proj1 (proj2
       (@directory_untouched_after_init texts one_bad_build
          [Prepare (request (Some two_steps)); Initialize; Release]
          (initialized one_bad_build) H)))).
Defined.

(** X5 at work on a disk that cannot be written: the slot stays as it was. *)
Lemma init_on_created_witness :
  _state (this (@fresh locked_disk)) = CREATED /\
  this (snd (@init texts locked_disk (@fresh locked_disk))) =
    with_state (_state (this (snd (@init texts locked_disk (@fresh locked_disk)))))
      (this (@fresh locked_disk)).
Proof.
  exact (conj eq_refl
    (proj1 (@init_on_created_removes_then_creates texts locked_disk
              (@fresh locked_disk) eq_refl))).
Defined.

(** X6 at work: a [prepare] that fails and one that succeeds count alike. *)
Lemma prepare_counts_every_call_witness :
  _state (this (initialized flaky_install)) <> CREATED /\
  _activeSandboxCount
    (this (@run texts flaky_install
             [Prepare (request None); Prepare (request None)]
             (initialized flaky_install))) =
  _activeSandboxCount (this (initialized flaky_install)) + 2.
Proof.
  assert (H : _state (this (initialized flaky_install)) <> CREATED)
    by (vm_compute; discriminate).
  exact (conj H
    (@prepare_counts_every_call texts flaky_install
       [Prepare (request None); Prepare (request None)]
       (initialized flaky_install) H eq_refl)).
Defined.

(** X8 at work around a [prepare] that fails. *)
Lemma prepare_then_release_witness :
  _state (this (initialized flaky_install)) <> CREATED /\
  0 <= _activeSandboxCount (this (initialized flaky_install)) /\
  this (snd (@decrementActiveSandboxCount texts
               (snd (@prepare texts flaky_install (request None)
                       (initialized flaky_install))))) =
    with_state
      (_state (this (snd (@prepare texts flaky_install (request None)
                            (initialized flaky_install)))))
      (with_lastUsedAt (now (initialized flaky_install))
         (this (initialized flaky_install))).
Proof.
  assert (H1 : _state (this (initialized flaky_install)) <> CREATED)
    by (vm_compute; discriminate).
  assert (H2 : 0 <= _activeSandboxCount (this (initialized flaky_install)))
    by (vm_compute; discriminate).
  exact (conj H1 (conj H2
    (@prepare_then_release_restores_count texts flaky_install (request None)
       (initialized flaky_install) H1 H2))).
Defined.

(** X9 at work: three releases of a slot with one borrower. *)
Lemma releases_stop_at_zero_witness :
  0 <= _activeSandboxCount (this (ready calm)) /\
  _activeSandboxCount (this (@run texts calm (repeat Release 3) (ready calm))) =
    Z.max 0 (_activeSandboxCount (this (ready calm)) - 3).
Proof.
  assert (H : 0 <= _activeSandboxCount (this (ready calm)))
    by (vm_compute; discriminate).
  exact (conj H
    (proj1 (@releases_stop_at_zero texts calm 3 (ready calm) H))).
Defined.

(** X10 at work: the first [prepare] fails, and the slot is in use. *)
Lemma accepted_prepare_marks_slot_in_use_witness :
  _state (this (@run texts flaky_install [Initialize]
                  (new_CachedSandbox {| ctor_key := "abc" |} 100 [] [] [])))
    <> CREATED /\
  isInUse (snd (@prepare texts flaky_install (request None)
                  (@run texts flaky_install [Initialize]
                     (new_CachedSandbox {| ctor_key := "abc" |} 100 [] [] []))))
    = true.
Proof.
  assert (H : _state (this (@run texts flaky_install [Initialize]
                  (new_CachedSandbox {| ctor_key := "abc" |} 100 [] [] [])))
              <> CREATED)
    by (vm_compute; discriminate).
  exact (conj H
    (@accepted_prepare_marks_slot_in_use texts flaky_install
       {| ctor_key := "abc" |} 100 [] [] [] [Initialize] (request None) H)).
Defined.

(** X11 at work on a slot that was never initialised. *)
Lemma prepare_error_context_witness :
  exists e,
    fst (@prepare texts calm (request None) (@fresh calm)) = Err e /\
    _state (this (@fresh calm)) <> READY.
Proof.
  pose proof (@prepare_unfold texts calm (request None) (@fresh calm)) as Hu.
  cbn [this _state fresh new_CachedSandbox] in Hu. cbv zeta in Hu.
  eexists. split; [rewrite Hu; reflexivity|].
  eapply (@prepare_error_context_describes_slot texts calm).
  rewrite Hu. reflexivity.
Defined.

(** X13 at work: two borrowers, one build. *)
Lemma second_prepare_reuses_the_build_witness :
  _state (this (initialized calm)) = INITIALIZED /\
  fst (@prepare texts calm (request (Some two_steps)) (initialized calm)) = Ok tt /\
  fst (@prepare texts calm (request None)
         (snd (@prepare texts calm (request (Some two_steps))
                 (initialized calm)))) = Ok tt.
Proof.
  assert (H1 : _state (this (initialized calm)) = INITIALIZED)
    by (vm_compute; reflexivity).
  assert (H2 : fst (@prepare texts calm (request (Some two_steps))
                      (initialized calm)) = Ok tt)
    by (vm_compute; reflexivity).
  exact (conj H1 (conj H2
    (proj1 (@second_prepare_reuses_the_build texts calm
              (request (Some two_steps)) (request None) (initialized calm)
              H1 H2)))).
Defined.

End LifecycleHistories.
